(** * Verification of the synthesizer's DSP core

    A shallow embedding of [synth/dsp/filter.py], [synth/dsp/oscillator.py],
    [synth/dsp/envelope.py], [synth/engine/audio_engine.py] and of the
    computer-keyboard and cutoff-knob handlers of [synth/gui/app.py].

    Numbers.  The sources compute on IEEE-754 double precision values
    (Python [float], [numpy.float64]).  The embedding idealises them as
    real numbers of the standard library: [+], [-], [*], [/] are exact,
    [min]/[max] are [Rmin]/[Rmax], [np.tan], [np.sin], [np.tanh] are [tan],
    [sin], [tanh], and [x % 1.0] is the fractional part.  Rounding, NaN
    and infinities are outside the model.  Integers are [Z] or [nat].

    Constants.  [synth/config.py] is not among the sources: [SAMPLE_RATE],
    [CONTROL_RATE_DIVIDER], [WAVETABLE_SIZE] and [NUM_CHANNELS] are
    parameters of the sections below; the closed examples instantiate them
    with the values 44100, 16, 2048 and 4.

    Exceptions.  A Python exception ([IndexError], [KeyError],
    [ValueError]) is modelled by [None] or by an error value; the state
    is then the one before the call unless the source mutated it first. *)

From Stdlib Require Import String Bool ZArith Reals Machin Lra Lia Psatz List.
Import ListNotations.

Local Open Scope R_scope.

(* ================================================================== *)
(** * synth/dsp/filter.py *)

Module Filter.

(** [state] in the source is a numpy array of four taps, read into
    [s0..s3] before the loop and written back after it. *)
Record taps : Type := mkTaps { s0 : R; s1 : R; s2 : R; s3 : R }.

Definition zero_taps : taps := mkTaps 0 0 0 0.

(** The two selectable backends of [_moog_ladder_process] present in the
    source (the C extension is an optional import). *)
Inductive backend : Type := Numba | Python.

(** Loop body of the Numba branch (filter.py lines 26-45): one sample
    [x] with cutoff [fc]; returns the output sample and the new taps. *)
Definition numba_step (x fc resonance : R) (st : taps) (sr : R) : R * taps :=
  let f := if Rlt_dec fc (sr * 0.49)
           then 2.0 * sr * tan (PI * fc / sr)
           else sr * 0.49 * 2.0 in
  let g := f / (2.0 * sr) in
  let G := g / (1.0 + g) in
  let r := resonance * 4.0 in
  let S := G * G * G * s0 st + G * G * s1 st + G * s2 st + s3 st in
  let u := (x - r * S) / (1.0 + r * G * G * G * G) in
  let v := (u - s0 st) * G in
  let lp := v + s0 st in
  let s0' := lp + v in
  let v := (lp - s1 st) * G in
  let lp := v + s1 st in
  let s1' := lp + v in
  let v := (lp - s2 st) * G in
  let lp := v + s2 st in
  let s2' := lp + v in
  let v := (lp - s3 st) * G in
  let lp := v + s3 st in
  let s3' := lp + v in
  (lp, mkTaps s0' s1' s2' s3').

(** Loop body of the pure-Python branch (filter.py lines 56-76). *)
Definition python_step (x fc resonance : R) (st : taps) (sr : R) : R * taps :=
  let fc := Rmin fc (sr * 0.49) in
  let f := 2.0 * sr * tan (PI * fc / sr) in
  let g := f / (2.0 * sr) in
  let G := g / (1.0 + g) in
  let r := resonance * 4.0 in
  let S := G * G * G * s0 st + G * G * s1 st + G * s2 st + s3 st in
  let u := (x - r * S) / (1.0 + r * G * G * G * G) in
  let v := (u - s0 st) * G in
  let lp := v + s0 st in
  let s0' := lp + v in
  let v := (lp - s1 st) * G in
  let lp := v + s1 st in
  let s1' := lp + v in
  let v := (lp - s2 st) * G in
  let lp := v + s2 st in
  let s2' := lp + v in
  let v := (lp - s3 st) * G in
  let lp := v + s3 st in
  let s3' := lp + v in
  (lp, mkTaps s0' s1' s2' s3').

Definition step (b : backend) : R -> R -> R -> taps -> R -> R * taps :=
  match b with Numba => numba_step | Python => python_step end.

(** [for i in range(len(samples))]: sample [i] is paired with
    [cutoff_buf[i]]; a cutoff buffer shorter than the samples is an
    [IndexError] ([None]), raised before the taps are written back. *)
Fixpoint ladder_loop (b : backend) (samples cutoff_buf : list R)
    (resonance : R) (st : taps) (sr : R) : option (list R * taps) :=
  match samples with
  | [] => Some ([], st)
  | x :: samples' =>
      match cutoff_buf with
      | [] => None
      | fc :: cutoff_buf' =>
          let '(lp, st') := step b x fc resonance st sr in
          match ladder_loop b samples' cutoff_buf' resonance st' sr with
          | Some (out, st_end) => Some (lp :: out, st_end)
          | None => None
          end
      end
  end.

(** [_moog_ladder_process(samples, cutoff_buf, resonance, state, sr)]:
    the returned pair is the output buffer and the contents of [state]
    after the call. *)
Definition _moog_ladder_process (b : backend) (samples cutoff_buf : list R)
    (resonance : R) (state : taps) (sr : R) : option (list R * taps) :=
  ladder_loop b samples cutoff_buf resonance state sr.

Record MoogFilter : Type := mkMoogFilter {
  cutoff : R;
  resonance : R;
  env_amount : R;
  key_tracking : R;
  _state : taps
}.

(** [MoogFilter.__init__] *)
Definition init : MoogFilter := mkMoogFilter 8000.0 0.0 0.0 0.0 zero_taps.

(** [np.clip(x, lo, hi)] is [minimum(hi, maximum(x, lo))]. *)
Definition clip (x lo hi : R) : R := Rmin hi (Rmax x lo).

Section Render.

Variable SAMPLE_RATE : R.

(** The per-sample cutoff buffer built by [MoogFilter.render]
    (filter.py lines 94-98). *)
Definition render_cutoff_buf (flt : MoogFilter) (samples : list R)
    (cutoff_mod : option (list R)) : list R :=
  let n := length samples in
  match cutoff_mod with
  | Some cm => map (fun m => clip (cutoff flt + m) 20.0 (SAMPLE_RATE * 0.49)) cm
  | None => repeat (Rmin (cutoff flt) (SAMPLE_RATE * 0.49)) n
  end.

(** [MoogFilter.render]: the output buffer and the filter afterwards
    (only [_state] can change). *)
Definition render (b : backend) (flt : MoogFilter) (samples : list R)
    (cutoff_mod : option (list R)) : option (list R * MoogFilter) :=
  let cutoff_buf := render_cutoff_buf flt samples cutoff_mod in
  match _moog_ladder_process b samples cutoff_buf (resonance flt)
          (_state flt) SAMPLE_RATE with
  | Some (out, st) =>
      Some (out, mkMoogFilter (cutoff flt) (resonance flt) (env_amount flt)
                   (key_tracking flt) st)
  | None => None
  end.

(** [MoogFilter.reset] *)
Definition reset (flt : MoogFilter) : MoogFilter :=
  mkMoogFilter (cutoff flt) (resonance flt) (env_amount flt)
    (key_tracking flt) zero_taps.

End Render.



End Filter.

(* ================================================================== *)
(** * synth/dsp/oscillator.py *)

Module Oscillator.

(** [acc += term k] for [k] running over [ks], starting from zero. *)
Definition accumulate (ks : list nat) (term : nat -> R) : R :=
  fold_left (fun acc k => acc + term k) ks 0.

(** [x % 1.0] on floats: the result has the sign of the divisor. *)
Definition mod1 (x : R) : R := frac_part x.

(** [np.cumsum] *)
Fixpoint cumsum_from (acc : R) (l : list R) : list R :=
  match l with
  | [] => []
  | x :: l' => (acc + x) :: cumsum_from (acc + x) l'
  end.

Definition cumsum (l : list R) : list R := cumsum_from 0 l.

(** [a.astype(np.int32)] truncates toward zero (overflow of the 32-bit
    range is outside the model). *)
Definition astype_int32 (x : R) : Z :=
  if Rle_dec 0 x then Int_part x else (- Int_part (- x))%Z.


(** [l[-1]]: [IndexError] on an empty array. *)
Definition last_opt (l : list R) : option R :=
  match l with [] => None | _ => Some (last l 0) end.

Record Oscillator : Type := mkOscillator {
  waveform : string;
  octave : Z;
  semitone : Z;
  detune : R;
  level : R;
  pulse_width : R;
  phase : R
}.

(** [Oscillator.__init__] *)
Definition init : Oscillator :=
  mkOscillator "saw" 0 0 0.0 1.0 0.5 0.0.

Definition set_phase (osc : Oscillator) (p : R) : Oscillator :=
  mkOscillator (waveform osc) (octave osc) (semitone osc) (detune osc)
    (level osc) (pulse_width osc) p.

(** [Oscillator.reset_phase] *)
Definition reset_phase (osc : Oscillator) : Oscillator := set_phase osc 0.0.

(** Assignment to the [waveform] attribute. *)
Definition set_waveform (osc : Oscillator) (w : string) : Oscillator :=
  mkOscillator w (octave osc) (semitone osc) (detune osc)
    (level osc) (pulse_width osc) (phase osc).

Section Tables.

Variable WAVETABLE_SIZE : nat.

(** [np.linspace(0.0, 1.0, WAVETABLE_SIZE, endpoint=False)[i]] *)
Definition linspace_phase (i : nat) : R :=
  INR i * ((1.0 - 0.0) / INR WAVETABLE_SIZE) + 0.0.

(** [range(1, 64)] and [range(1, 64, 2)] *)
Definition harmonics : list nat := seq 1 63.
Definition odd_harmonics : list nat := map (fun j => (2 * j + 1)%nat) (seq 0 32).

(** Entry [i] of each table built by [_build_tables]. *)
Definition sine_at (i : nat) : R := sin (2.0 * PI * linspace_phase i).

Definition saw_at (i : nat) : R :=
  accumulate harmonics
    (fun k => ((-1.0) ^ (k + 1)) * sin (2.0 * PI * INR k * linspace_phase i) / INR k)
  * (2.0 / PI).

Definition square_at (i : nat) : R :=
  accumulate odd_harmonics
    (fun k => sin (2.0 * PI * INR k * linspace_phase i) / INR k)
  * (4.0 / PI).

Definition triangle_at (i : nat) : R :=
  accumulate odd_harmonics
    (fun k => let sign := (-1.0) ^ ((k - 1) / 2) in
              sign * sin (2.0 * PI * INR k * linspace_phase i) / INR (k * k))
  * (8.0 / (PI * PI)).

Definition build (entry : nat -> R) : list R := map entry (seq 0 WAVETABLE_SIZE).

(** [_TABLES.get(waveform, _TABLES["saw"])] *)
Definition _TABLES_get (w : string) : list R :=
  if String.eqb w "sine" then build sine_at
  else if String.eqb w "saw" then build saw_at
  else if String.eqb w "square" then build square_at
  else if String.eqb w "triangle" then build triangle_at
  else build saw_at.

Variable SAMPLE_RATE : R.

(** The effective frequency (oscillator.py line 48). *)
Definition tuned_freq (osc : Oscillator) (freq : R) : R :=
  freq * Rpower 2.0 (IZR (octave osc))
       * Rpower 2.0 (IZR (semitone osc) / 12.0)
       * Rpower 2.0 (detune osc / 1200.0).

(** The phase increment per sample (lines 56-61). *)
Definition render_increments (osc : Oscillator) (freq : R) (n_samples : nat)
    (pitch_mod : option (list R)) : list R :=
  let f := tuned_freq osc freq in
  match pitch_mod with
  | Some pm => map (fun m => f * Rpower 2.0 (m / 12.0) / SAMPLE_RATE) pm
  | None => repeat (f / SAMPLE_RATE) n_samples
  end.

(** [phases = (self.phase + cumulative - increments) % 1.0] (line 66) *)
Definition render_phases (osc : Oscillator) (increments : list R) : list R :=
  map (fun ci => mod1 (phase osc + fst ci - snd ci))
      (combine (cumsum increments) increments).

(** Wavetable lookup with linear interpolation (lines 70-75), for the
    phase [ph] of one sample. *)
Definition lookup (table : list R) (ph : R) : R :=
  let ts := Z.of_nat WAVETABLE_SIZE in
  let idx_f := ph * INR WAVETABLE_SIZE in
  let idx_i := astype_int32 idx_f in
  let frac := idx_f - IZR idx_i in
  let idx_next := ((idx_i + 1) mod ts)%Z in
  let idx_i := (idx_i mod ts)%Z in
  nth (Z.to_nat idx_i) table 0 * (1.0 - frac)
  + nth (Z.to_nat idx_next) table 0 * frac.

(** [Oscillator.render]: the returned buffer ([None] for the
    [IndexError] of [cumulative[-1]] on an empty array) and the
    oscillator afterwards. *)
Definition render (osc : Oscillator) (freq : R) (n_samples : nat)
    (pitch_mod : option (list R)) : option (list R) * Oscillator :=
  if Rle_dec (level osc) 0.0 then (Some (repeat 0.0 n_samples), osc)
  else
    let table := _TABLES_get (waveform osc) in
    let increments := render_increments osc freq n_samples pitch_mod in
    let cumulative := cumsum increments in
    let phases := render_phases osc increments in
    match last_opt cumulative with
    | None => (None, osc)
    | Some c_last =>
        let osc' := set_phase osc (mod1 (phase osc + c_last)) in
        (Some (map (fun ph => lookup table ph * level osc) phases), osc')
    end.

(** A client's use of one oscillator. *)
Inductive call : Type :=
| Render (freq : R) (n_samples : nat) (pitch_mod : option (list R))
| ResetPhase.

Definition run_call (osc : Oscillator) (c : call) : Oscillator :=
  match c with
  | Render freq n pm => snd (render osc freq n pm)
  | ResetPhase => reset_phase osc
  end.

Definition run_calls (osc : Oscillator) (cs : list call) : Oscillator :=
  fold_left run_call cs osc.

End Tables.



End Oscillator.

(* ================================================================== *)
(** * synth/dsp/envelope.py *)

Module Envelope.

(** Minimum time to avoid division by zero. *)
Definition _MIN_TIME : R := 0.001.

(** The five values taken by the string field [_state]. *)
Inductive stage : Type := Idle | Attack | Decay | Sustain | Release.

Record ADSR : Type := mkADSR {
  attack : R;
  decay : R;
  sustain : R;
  release : R;
  _state : stage;
  _level : R;
  _samples_in_state : nat
}.

(** [ADSR.__init__] with its default arguments. *)
Definition init (attack decay sustain release : R) : ADSR :=
  mkADSR attack decay sustain release Idle 0.0 0.

Definition default : ADSR := init 0.01 0.1 0.7 0.3.

Definition update (e : ADSR) (st : stage) (lv : R) (k : nat) : ADSR :=
  mkADSR (attack e) (decay e) (sustain e) (release e) st lv k.

Definition gate_on (e : ADSR) : ADSR := update e Attack (_level e) 0.

Definition gate_off (e : ADSR) : ADSR :=
  match _state e with
  | Idle => e
  | _ => update e Release (_level e) 0
  end.

Definition is_active (e : ADSR) : bool :=
  match _state e with Idle => false | _ => true end.

(** [ADSR.reset] *)
Definition reset (e : ADSR) : ADSR := update e Idle 0.0 0.

(** The envelope's level is a level: between 0 and 1, like the
    sustain parameter. *)
Definition unit_range (v : R) : Prop := 0 <= v <= 1.

Definition level_ok (e : ADSR) : Prop :=
  0 <= sustain e <= 1 /\ 0 <= _level e <= 1.

(** The envelope is silent: idle at level zero. *)
Definition silent (e : ADSR) : Prop := _state e = Idle /\ _level e = 0.

(** The envelope with its three times raised to [_MIN_TIME], which is
    how [_advance] reads them. *)
Definition clamp_times (e : ADSR) : ADSR :=
  mkADSR (Rmax (attack e) _MIN_TIME) (Rmax (decay e) _MIN_TIME) (sustain e)
    (Rmax (release e) _MIN_TIME) (_state e) (_level e) (_samples_in_state e).

Section Render.

Variable SAMPLE_RATE : R.
Variable CONTROL_RATE_DIVIDER : nat.

(** [ADSR._advance] *)
Definition _advance (e : ADSR) (n_samples : nat) : ADSR :=
  let k := (_samples_in_state e + n_samples)%nat in
  match _state e with
  | Attack =>
      let rate := Rmax (attack e) _MIN_TIME * SAMPLE_RATE in
      let lv := _level e + INR n_samples / rate in
      if Rge_dec lv 1.0 then update e Decay 1.0 0
      else update e Attack lv k
  | Decay =>
      let rate := Rmax (decay e) _MIN_TIME * SAMPLE_RATE in
      let lv := _level e - (1.0 - sustain e) * INR n_samples / rate in
      if Rle_dec lv (sustain e) then update e Sustain (sustain e) 0
      else update e Decay lv k
  | Sustain => update e Sustain (sustain e) k
  | Release =>
      let rate := Rmax (release e) _MIN_TIME * SAMPLE_RATE in
      let lv := _level e - _level e * INR n_samples / rate in
      if Rlt_dec lv 1e-5 then update e Idle 0.0 0
      else update e Release lv k
  | Idle => update e Idle (_level e) k
  end.

(** [block_size] of block [i] (envelope.py lines 39 and 51). *)
Definition block_size (n_samples i : nat) : nat :=
  let n_blocks := (n_samples / CONTROL_RATE_DIVIDER)%nat in
  let remainder := (n_samples mod CONTROL_RATE_DIVIDER)%nat in
  if (i <? n_blocks)%nat then CONTROL_RATE_DIVIDER else remainder.

Definition total_blocks (n_samples : nat) : nat :=
  let n_blocks := (n_samples / CONTROL_RATE_DIVIDER)%nat in
  let remainder := (n_samples mod CONTROL_RATE_DIVIDER)%nat in
  (n_blocks + (if (remainder =? 0)%nat then 0 else 1))%nat.

(** The first loop of [render] (lines 38-41): advance block by block,
    recording the level after each block. *)
Fixpoint control_loop (e : ADSR) (sizes : list nat) : ADSR * list R :=
  match sizes with
  | [] => (e, [])
  | b :: sizes' =>
      let e1 := _advance e b in
      let '(e2, cv) := control_loop e1 sizes' in
      (e2, _level e1 :: cv)
  end.

(** The samples written for block [i] by the second loop (lines 50-62). *)
Definition ramp_block (control_values : list R) (n_samples i : nat) : list R :=
  let bs := block_size n_samples i in
  if (bs =? 0)%nat then []
  else if (i =? 0)%nat then repeat (nth i control_values 0) bs
  else
    let prev := nth (i - 1) control_values 0 in
    let cur := nth i control_values 0 in
    map (fun j => prev + (cur - prev) * (INR j / INR bs)) (seq 0 bs).

(** [ADSR.render]: the audio-rate buffer and the envelope afterwards.
    [CONTROL_RATE_DIVIDER = 0] is a [ZeroDivisionError] in the source;
    the sections below assume it positive. *)
Definition render (e : ADSR) (n_samples : nat) : list R * ADSR :=
  let tb := total_blocks n_samples in
  let sizes := map (block_size n_samples) (seq 0 tb) in
  let '(e', control_values) := control_loop e sizes in
  if (tb <=? 1)%nat then (repeat (_level e') n_samples, e')
  else (concat (map (ramp_block control_values n_samples) (seq 0 tb)), e').

(** A client's use of one envelope. *)
Inductive call : Type := GateOn | GateOff | RenderCall (n_samples : nat).

Definition run_call (e : ADSR) (c : call) : ADSR :=
  match c with
  | GateOn => gate_on e
  | GateOff => gate_off e
  | RenderCall n => snd (render e n)
  end.

Definition run_calls (e : ADSR) (cs : list call) : ADSR :=
  fold_left run_call cs e.

(** The buffers returned by the [RenderCall]s of a sequence of calls,
    in order. *)
Fixpoint rendered (e : ADSR) (cs : list call) : list (list R) :=
  match cs with
  | [] => []
  | RenderCall n :: cs' => fst (render e n) :: rendered (snd (render e n)) cs'
  | c :: cs' => rendered (run_call e c) cs'
  end.

(** After [T] samples of a release of time [rel]: silent, or still
    releasing with the level under an exponential in [T] and, once a
    block has been rendered, not under the idle threshold. *)
Definition fading (rel T : R) (e : ADSR) : Prop :=
  release e = rel /\
  (silent e \/
   (_state e = Release /\
    0 <= _level e <= exp (- (T / (Rmax rel _MIN_TIME * SAMPLE_RATE))) /\
    (0 < T -> 1e-5 <= _level e))).



End Render.

End Envelope.

(* ================================================================== *)
(** * synth/engine/audio_engine.py *)

Module Engine.

(** Exceptions the engine can raise. *)
Inductive exn : Type := IndexError | KeyError | ValueError.

(** A small error monad for the code paths that can raise. *)
Inductive result (A : Type) : Type :=
| Ok (a : A)
| Raise (e : exn).

Arguments Ok {A} a.
Arguments Raise {A} e.

Definition bind {A B : Type} (m : result A) (k : A -> result B) : result B :=
  match m with
  | Ok a => k a
  | Raise e => Raise e
  end.

Notation "x <- m ;; k" := (bind m (fun x => k))
  (at level 61, m at next level, right associativity).

(** [msg[key]] raises [KeyError] when the key is absent. *)
Definition item {A : Type} (field : option A) : result A :=
  match field with
  | Some a => Ok a
  | None => Raise KeyError
  end.

(** A parsed MIDI message: a dict in which any key may be missing. *)
Record message : Type := mkMessage {
  m_type : option string;
  m_channel : option Z;
  m_note : option Z;
  m_velocity : option Z;
  m_control : option Z;
  m_value : option Z
}.

(** The interface of [synth/engine/channel.py] used by the engine; that
    file and [synth/midi/cc_map.py] are not among the sources, so the
    engine is parametric in them. *)
Class ChannelAPI (Channel : Type) : Type := {
  Channel_new : nat -> Channel;
  note_on : Channel -> Z -> Z -> Channel;
  note_off : Channel -> Z -> Channel;
  set_param : Channel -> string -> R -> Channel;
  all_notes_off : Channel -> Channel;
  render : Channel -> nat -> list R * Channel;
  CC_MAP : Z -> option (string * R * R)
}.

(** Python list indexing [l[i]]: negative indices count from the end,
    anything outside [-len, len) is an [IndexError]. *)
Definition py_index (len : nat) (i : Z) : result nat :=
  if ((0 <=? i) && (i <? Z.of_nat len))%Z then Ok (Z.to_nat i)
  else if ((- Z.of_nat len <=? i) && (i <? 0))%Z
       then Ok (Z.to_nat (Z.of_nat len + i))
       else Raise IndexError.

(** In-place update of the channel object stored at position [k]. *)
Fixpoint set_nth {A : Type} (k : nat) (a : A) (l : list A) : list A :=
  match l, k with
  | [], _ => []
  | _ :: l', O => a :: l'
  | x :: l', S k' => x :: set_nth k' a l'
  end.

(** [np.max]: [ValueError] on an empty array. *)
Definition np_max (l : list R) : result R :=
  match l with
  | [] => Raise ValueError
  | x :: l' => Ok (fold_left Rmax l' x)
  end.

Section Engine.

Context {Channel : Type} `{API : ChannelAPI Channel}.

Variable NUM_CHANNELS : nat.

Record AudioEngine : Type := mkAudioEngine {
  channels : list Channel;
  midi_queue : list message;
  _running : bool;
  _master_volume : R;
  _peak_level : R
}.

(** [AudioEngine.__init__] *)
Definition init : AudioEngine :=
  mkAudioEngine (map Channel_new (seq 0 NUM_CHANNELS)) [] false 0.8 0.0.

Definition with_channels (eng : AudioEngine) (chs : list Channel) : AudioEngine :=
  mkAudioEngine chs (midi_queue eng) (_running eng) (_master_volume eng)
    (_peak_level eng).

(** [AudioEngine._process_cc], on the channel object it is given. *)
Definition _process_cc (channel : Channel) (cc value : Z) : Channel :=
  let normalized := IZR value / 127.0 in
  match CC_MAP cc with
  | Some (param, min_val, max_val) =>
      let scaled := min_val + normalized * (max_val - min_val) in
      set_param channel param scaled
  | None =>
      if ((cc =? 120) || (cc =? 123))%Z then all_notes_off channel
      else channel
  end.

(** The channel index selected by [_process_midi] (lines 68-71). *)
Definition route (eng : AudioEngine) (msg : message) : result nat :=
  let ch_idx := match m_channel msg with Some c => c | None => 0%Z end in
  let ch_idx := if (ch_idx >=? Z.of_nat NUM_CHANNELS)%Z then 0%Z else ch_idx in
  py_index (length (channels eng)) ch_idx.

Definition is_type (msg : message) (name : string) : bool :=
  match m_type msg with
  | Some t => String.eqb t name
  | None => false
  end.

(** [AudioEngine._process_midi] *)
Definition _process_midi (eng : AudioEngine) (msg : message) : result AudioEngine :=
  k <- route eng msg ;;
  channel <- item (nth_error (channels eng) k) ;;
  channel' <-
    (if is_type msg "note_on" then
       velocity <- item (m_velocity msg) ;;
       if (velocity >? 0)%Z then
         note <- item (m_note msg) ;;
         Ok (note_on channel note velocity)
       else
         note <- item (m_note msg) ;;
         Ok (note_off channel note)
     else if is_type msg "note_off" then
       note <- item (m_note msg) ;;
       Ok (note_off channel note)
     else if is_type msg "control_change" then
       control <- item (m_control msg) ;;
       value <- item (m_value msg) ;;
       Ok (_process_cc channel control value)
     else Ok channel) ;;
  Ok (with_channels eng (set_nth k channel' (channels eng))).

(** Draining the MIDI queue (lines 43-48): messages are popped from the
    left and processed in order. *)
Fixpoint drain (eng : AudioEngine) (queue : list message) : result AudioEngine :=
  match queue with
  | [] => Ok eng
  | msg :: queue' =>
      eng' <- _process_midi eng msg ;;
      drain eng' queue'
  end.

(** [out += x] on arrays of one shape. *)
Definition add_into (out x : list R) : result (list R) :=
  if (length x =? length out)%nat
  then Ok (map (fun p => fst p + snd p) (combine out x))
  else Raise ValueError.

(** [for ch in self.channels: out += ch.render(frames)] *)
Fixpoint render_channels (chs : list Channel) (frames : nat) (out : list R)
    : result (list R * list Channel) :=
  match chs with
  | [] => Ok (out, [])
  | ch :: chs' =>
      let '(buf, ch') := render ch frames in
      out' <- add_into out buf ;;
      r <- render_channels chs' frames out' ;;
      Ok (fst r, ch' :: snd r)
  end.

(** The [master_volume] setter. *)
Definition set_master_volume (eng : AudioEngine) (value : R) : AudioEngine :=
  mkAudioEngine (channels eng) (midi_queue eng) (_running eng)
    (Rmax 0.0 (Rmin 1.0 value)) (_peak_level eng).

(** [AudioEngine.stop]; the device stream is not modelled. *)
Definition stop (eng : AudioEngine) : AudioEngine :=
  mkAudioEngine (map all_notes_off (channels eng)) (midi_queue eng) false
    (_master_volume eng) (_peak_level eng).

(** Sample [i] of the mix: the channels' samples added in channel
    order, starting from zero. *)
Definition mixed_sample (chs : list Channel) (frames i : nat) : R :=
  fold_left (fun acc ch => acc + nth i (fst (render ch frames)) 0) chs 0.0.

(** [AudioEngine._audio_callback]: the engine afterwards and the block
    written to [outdata[:, 0]]. *)
Definition _audio_callback (eng : AudioEngine) (frames : nat)
    : result (AudioEngine * list R) :=
  eng1 <- drain (mkAudioEngine (channels eng) [] (_running eng)
                   (_master_volume eng) (_peak_level eng)) (midi_queue eng) ;;
  r <- render_channels (channels eng1) frames (repeat 0.0 frames) ;;
  let out := map (fun x => x * _master_volume eng1) (fst r) in
  let out := map tanh out in
  peak <- np_max (map Rabs out) ;;
  Ok (mkAudioEngine (snd r) (midi_queue eng1) (_running eng1)
        (_master_volume eng1) peak, out).

End Engine.

(** Modelled from the spec: [synth/engine/channel.py] is missing.  This
    channel keeps its index and the calls forwarded to it (spec 4.10:
    note_on, note_off, all_notes_off and set_param are forwarded) and
    renders silence; its CC table is empty. *)
Inductive forwarded : Type :=
| NoteOn (note velocity : Z)
| NoteOff (note : Z)
| SetParam (path : string) (value : R)
| AllNotesOff.

Record TraceChannel : Type := mkTraceChannel {
  index : nat;
  calls : list forwarded
}.

#[export] Instance trace_api : ChannelAPI TraceChannel := {
  Channel_new := fun i => mkTraceChannel i [];
  note_on := fun ch n v => mkTraceChannel (index ch) (calls ch ++ [NoteOn n v]);
  note_off := fun ch n => mkTraceChannel (index ch) (calls ch ++ [NoteOff n]);
  set_param := fun ch p x => mkTraceChannel (index ch) (calls ch ++ [SetParam p x]);
  all_notes_off := fun ch => mkTraceChannel (index ch) (calls ch ++ [AllNotesOff]);
  render := fun ch frames => (repeat 0.0 frames, ch);
  CC_MAP := fun _ => None
}.

(** A second channel for closed examples: the same trace channel with
    a one-entry controller table (controller 74 on the filter cutoff);
    the real table is in [synth/midi/cc_map.py], which is missing. *)
Definition trace_api_cc : ChannelAPI TraceChannel := {|
  Channel_new := fun i => mkTraceChannel i [];
  note_on := fun ch n v => mkTraceChannel (index ch) (calls ch ++ [NoteOn n v]);
  note_off := fun ch n => mkTraceChannel (index ch) (calls ch ++ [NoteOff n]);
  set_param := fun ch p x => mkTraceChannel (index ch) (calls ch ++ [SetParam p x]);
  all_notes_off := fun ch => mkTraceChannel (index ch) (calls ch ++ [AllNotesOff]);
  render := fun ch frames => (repeat 0.0 frames, ch);
  CC_MAP := fun cc => if (cc =? 74)%Z
                      then Some ("filter.cutoff"%string, 20.0, 20000.0)
                      else None
|}.

(** A four-channel engine of trace channels, for closed examples. *)
Definition example_engine : @AudioEngine TraceChannel :=
  @init TraceChannel trace_api 4.

End Engine.

(* ================================================================== *)
(** * synth/gui/app.py: the state behind the computer keyboard and the
      cutoff knob *)

Module Gui.

(** [KEY_MAP]: semitone offset of each playing key. *)
Definition KEY_MAP (key : string) : option Z :=
  if String.eqb key "a" then Some 0%Z
  else if String.eqb key "s" then Some 2%Z
  else if String.eqb key "d" then Some 4%Z
  else if String.eqb key "f" then Some 5%Z
  else if String.eqb key "g" then Some 7%Z
  else if String.eqb key "h" then Some 9%Z
  else if String.eqb key "j" then Some 11%Z
  else if String.eqb key "k" then Some 12%Z
  else if String.eqb key "l" then Some 14%Z
  else if String.eqb key "w" then Some 1%Z
  else if String.eqb key "e" then Some 3%Z
  else if String.eqb key "t" then Some 6%Z
  else if String.eqb key "y" then Some 8%Z
  else if String.eqb key "u" then Some 10%Z
  else if String.eqb key "o" then Some 13%Z
  else if String.eqb key "p" then Some 15%Z
  else None.

(** A dict with string keys, in insertion order. *)
Fixpoint lookup {A : Type} (key : string) (d : list (string * A)) : option A :=
  match d with
  | [] => None
  | (k, a) :: d' => if String.eqb k key then Some a else lookup key d'
  end.

(** [d.pop(key, None)] *)
Fixpoint pop {A : Type} (key : string) (d : list (string * A)) : list (string * A) :=
  match d with
  | [] => []
  | (k, a) :: d' => if String.eqb k key then d' else (k, a) :: pop key d'
  end.

Definition contains {A : Type} (key : string) (d : list (string * A)) : bool :=
  match lookup key d with Some _ => true | None => false end.

(** A call made on one of the engine's channels: the channel index and
    the call. *)
Inductive channel_call : Type :=
| CallNoteOn (channel : nat) (note velocity : Z)
| CallNoteOff (channel : nat) (note : Z).

(** The attributes of [SynthGUI] read and written by the keyboard
    handlers; [timers] counts the ids handed out by [self.after], and
    [sent] lists the calls made on the engine's channels, oldest first.
    Widget updates (labels, key colours) are not modelled. *)
Record SynthGUI : Type := mkSynthGUI {
  current_channel : nat;
  kbd_octave : Z;
  _held_keys : list (string * Z);
  _pending_releases : list (string * nat);
  timers : nat;
  sent : list channel_call
}.

(** [SynthGUI.__init__] *)
Definition init : SynthGUI := mkSynthGUI 0 4 [] [] 0 [].

(** [_play_note(note, velocity=100)] and [_stop_note(note)] *)
Definition _play_note (gui : SynthGUI) (note : Z) : SynthGUI :=
  mkSynthGUI (current_channel gui) (kbd_octave gui) (_held_keys gui)
    (_pending_releases gui) (timers gui)
    (sent gui ++ [CallNoteOn (current_channel gui) note 100]).

Definition _stop_note (gui : SynthGUI) (note : Z) : SynthGUI :=
  mkSynthGUI (current_channel gui) (kbd_octave gui) (_held_keys gui)
    (_pending_releases gui) (timers gui)
    (sent gui ++ [CallNoteOff (current_channel gui) note]).

(** [_on_key_press], for [key = event.char.lower()] *)
Definition _on_key_press (gui : SynthGUI) (key : string) : SynthGUI :=
  match KEY_MAP key with
  | None => gui
  | Some offset =>
      if contains key (_pending_releases gui) then
        mkSynthGUI (current_channel gui) (kbd_octave gui) (_held_keys gui)
          (pop key (_pending_releases gui)) (timers gui) (sent gui)
      else if negb (contains key (_held_keys gui)) then
        let note := ((kbd_octave gui + 1) * 12 + offset)%Z in
        _play_note
          (mkSynthGUI (current_channel gui) (kbd_octave gui)
             (_held_keys gui ++ [(key, note)]) (_pending_releases gui)
             (timers gui) (sent gui))
          note
      else gui
  end.

(** [_on_key_release]: the release is delayed by a timer. *)
Definition _on_key_release (gui : SynthGUI) (key : string) : SynthGUI :=
  if contains key (_held_keys gui) && negb (contains key (_pending_releases gui))
  then mkSynthGUI (current_channel gui) (kbd_octave gui) (_held_keys gui)
         (_pending_releases gui ++ [(key, timers gui)]) (S (timers gui))
         (sent gui)
  else gui.

(** [_do_key_release], the timer's callback. *)
Definition _do_key_release (gui : SynthGUI) (key : string) : SynthGUI :=
  let pending := pop key (_pending_releases gui) in
  match lookup key (_held_keys gui) with
  | Some note =>
      _stop_note
        (mkSynthGUI (current_channel gui) (kbd_octave gui)
           (pop key (_held_keys gui)) pending (timers gui) (sent gui))
        note
  | None =>
      mkSynthGUI (current_channel gui) (kbd_octave gui) (_held_keys gui)
        pending (timers gui) (sent gui)
  end.

Definition set_octave (gui : SynthGUI) (o : Z) : SynthGUI :=
  mkSynthGUI (current_channel gui) o (_held_keys gui) (_pending_releases gui)
    (timers gui) (sent gui).

(** [_oct_down] and [_oct_up] *)
Definition _oct_down (gui : SynthGUI) : SynthGUI :=
  if (kbd_octave gui >? 0)%Z then set_octave gui (kbd_octave gui - 1) else gui.

Definition _oct_up (gui : SynthGUI) : SynthGUI :=
  if (kbd_octave gui <? 7)%Z then set_octave gui (kbd_octave gui + 1) else gui.

(** [_select_channel]: the held notes are stopped on the channel that
    is left, in the order the keys were pressed. *)
Definition _select_channel (gui : SynthGUI) (ch_idx : nat) : SynthGUI :=
  let stopped := fold_left (fun g kn => _stop_note g (snd kn)) (_held_keys gui) gui in
  mkSynthGUI ch_idx (kbd_octave stopped) [] (_pending_releases stopped)
    (timers stopped) (sent stopped).

(** What can happen to the keyboard state. *)
Inductive event : Type :=
| KeyPress (key : string)
| KeyRelease (key : string)
| TimerFires (key : string)
| OctDown
| OctUp
| SelectChannel (ch_idx : nat).

Definition handle (gui : SynthGUI) (ev : event) : SynthGUI :=
  match ev with
  | KeyPress key => _on_key_press gui key
  | KeyRelease key => _on_key_release gui key
  | TimerFires key => _do_key_release gui key
  | OctDown => _oct_down gui
  | OctUp => _oct_up gui
  | SelectChannel ch_idx => _select_channel gui ch_idx
  end.

Definition run (gui : SynthGUI) (evs : list event) : SynthGUI :=
  fold_left handle evs gui.

(** How many times [note] sounds on [channel] according to a list of
    calls: note_ons minus note_offs. *)
Definition sounding_delta (channel : nat) (note : Z) (c : channel_call) : Z :=
  match c with
  | CallNoteOn ch n _ => if ((ch =? channel)%nat && (n =? note)%Z)%bool then 1 else 0
  | CallNoteOff ch n => if ((ch =? channel)%nat && (n =? note)%Z)%bool then -1 else 0
  end.

Definition sounding (channel : nat) (note : Z) (calls : list channel_call) : Z :=
  fold_right (fun c acc => (sounding_delta channel note c + acc)%Z) 0%Z calls.

(** How many held keys play [note]. *)
Definition held_count (note : Z) (held : list (string * Z)) : Z :=
  fold_right (fun kn acc => ((if (snd kn =? note)%Z then 1 else 0) + acc)%Z)
    0%Z held.

(** The notes the computer keyboard can produce, and a call that
    carries one of them (a note_on with the fixed velocity 100). *)
Definition keyboard_note (n : Z) : Prop := (12 <= n <= 111)%Z.

Definition keyboard_call (c : channel_call) : Prop :=
  match c with
  | CallNoteOn _ n v => keyboard_note n /\ v = 100%Z
  | CallNoteOff _ n => keyboard_note n
  end.

(** The state of the keyboard is sound: the octave is one of 0..7 and
    every note held or sent is a keyboard note. *)
Definition keyboard_ok (gui : SynthGUI) : Prop :=
  (0 <= kbd_octave gui <= 7)%Z
  /\ Forall (fun kn => keyboard_note (snd kn)) (_held_keys gui)
  /\ Forall keyboard_call (sent gui).

(** The calls sent account for the held keys: a note sounds on the
    current channel once per held key that plays it, and nothing
    sounds on the other channels. *)
Definition accounted (gui : SynthGUI) : Prop :=
  forall (channel : nat) (note : Z),
    sounding channel note (sent gui)
    = if (channel =? current_channel gui)%nat
      then held_count note (_held_keys gui) else 0%Z.



End Gui.

(* ================================================================== *)
(** * Proofs *)

(** Decimal literals such as [0.49] are rationals injected by [Q2R];
    [field] wants them as quotients of integers. *)
Ltac unlit := unfold Q2R in *; cbn [QArith_base.Qnum QArith_base.Qden] in *.


Lemma repeat_zero_lit (n : nat) : repeat 0.0 n = repeat 0 n.
Proof. f_equal. lra. Qed.


(* ================================================================== *)
(** * Properties of the ladder filter *)

Module FilterSpec.
Import Filter.

(** The prewarped gain at the Nyquist clamp exceeds one. *)
Lemma tan_clamp_gt_1 : 1 < tan (PI * 0.49).
Proof.
  pose proof PI_RGT_0 as Hpi.
  rewrite <- tan_PI4.
  apply tan_increasing; lra.
Qed.

Lemma clamp_angle (sr : R) : 0 < sr -> PI * (sr * 0.49) / sr = PI * 0.49.
Proof. intros Hsr. unlit. field. lra. Qed.

(** Both loop bodies are the same function of the cutoff as long as the
    cutoff is strictly below the clamp. *)
Lemma step_agree_below (x fc res : R) (st : taps) (sr : R) :
  fc < sr * 0.49 ->
  numba_step x fc res st sr = python_step x fc res st sr.
Proof.
  intros Hfc. unfold numba_step, python_step.
  destruct (Rlt_dec fc (sr * 0.49)) as [_ | Hn]; [| contradiction].
  rewrite Rmin_left by lra. reflexivity.
Qed.

Lemma backends_agree_below_nyquist (samples cutoff_buf : list R)
    (res : R) (st : taps) (sr : R) :
  Forall (fun fc => fc < sr * 0.49) cutoff_buf ->
  _moog_ladder_process Numba samples cutoff_buf res st sr
  = _moog_ladder_process Python samples cutoff_buf res st sr.
Proof.
  unfold _moog_ladder_process.
  revert cutoff_buf st.
  induction samples as [| x samples IH]; intros cutoff_buf st Hall.
  - reflexivity.
  - destruct cutoff_buf as [| fc cutoff_buf]; [reflexivity |].
    inversion Hall as [| ? ? Hfc Hrest]; subst.
    cbn [ladder_loop step]. rewrite (step_agree_below x fc res st sr Hfc).
    destruct (python_step x fc res st sr) as [lp st'].
    rewrite (IH cutoff_buf st' Hrest). reflexivity.
Qed.

(** With zero taps and no resonance one step outputs [G^4 * x]. *)
Lemma numba_step_at_clamp (sr : R) :
  0 < sr ->
  fst (numba_step 1 (sr * 0.49) 0 zero_taps sr) = (0.49 / 1.49) ^ 4.
Proof.
  intros Hsr. unfold numba_step.
  destruct (Rlt_dec (sr * 0.49) (sr * 0.49)) as [Hlt | _]; [lra |].
  cbv zeta. cbn [fst s0 s1 s2 s3 zero_taps]. unlit. field. lra.
Qed.

Lemma python_step_at_clamp (sr : R) :
  0 < sr ->
  let t := tan (PI * 0.49) in
  fst (python_step 1 (sr * 0.49) 0 zero_taps sr) = (t / (1 + t)) ^ 4.
Proof.
  intros Hsr t. unfold python_step.
  rewrite Rmin_left by lra. rewrite (clamp_angle sr Hsr). fold t.
  pose proof tan_clamp_gt_1 as Ht. fold t in Ht.
  cbv zeta. cbn [fst s0 s1 s2 s3 zero_taps]. unlit. field. lra.
Qed.

(** C1.  At a cutoff equal to the Nyquist clamp [SAMPLE_RATE * 0.49]
    (here 44100 Hz, one unit sample, no resonance, zero taps) the two
    backends return different samples: the Numba branch returns
    [(0.49/1.49)^4], below 1/16, the pure-Python branch a value above
    1/16.  The backends are therefore not the same function on cutoff
    buffers clamped to at most [SAMPLE_RATE * 0.49]. *)
Theorem backends_differ_at_nyquist :
  exists yn yp stn stp,
    _moog_ladder_process Numba [1] [44100 * 0.49] 0 zero_taps 44100
      = Some ([yn], stn) /\
    _moog_ladder_process Python [1] [44100 * 0.49] 0 zero_taps 44100
      = Some ([yp], stp) /\
    yn < 1 / 16 < yp.
Proof.
  assert (Hsr : 0 < 44100) by lra.
  pose proof (numba_step_at_clamp 44100 Hsr) as Hn.
  pose proof (python_step_at_clamp 44100 Hsr) as Hp. cbv zeta in Hp.
  unfold _moog_ladder_process. cbn [ladder_loop step].
  destruct (numba_step 1 (44100 * 0.49) 0 zero_taps 44100) as [yn stn].
  destruct (python_step 1 (44100 * 0.49) 0 zero_taps 44100) as [yp stp].
  simpl in Hn, Hp.
  exists yn, yp, stn, stp. repeat split.
  - rewrite Hn. lra.
  - rewrite Hp. pose proof tan_clamp_gt_1 as Ht.
    set (t := tan (PI * 0.49)) in *.
    assert (Hg : 1 / 2 < t / (1 + t)).
    { assert (HG : t / (1 + t) * (1 + t) = t) by (field; lra).
      nra. }
    set (G := t / (1 + t)) in *.
    assert (H2 : 1 / 4 < G * G) by nra.
    simpl. nra.
Qed.


(** [MoogFilter.render] can hand the clamp value itself to the ladder:
    a cutoff field at or above the clamp, without modulation. *)
Lemma render_hands_clamp :
  render_cutoff_buf 44100 (mkMoogFilter 22050 0 0 0 zero_taps) [1] None
  = [44100 * 0.49].
Proof.
  unfold render_cutoff_buf. cbn [length repeat cutoff].
  rewrite Rmin_right by lra. reflexivity.
Qed.

Section CutoffBuffer.

Variable SAMPLE_RATE : R.
Hypothesis nyquist_above_20 : 20 <= SAMPLE_RATE * 0.49.

Lemma clip_in_range (x : R) :
  20 <= clip x 20.0 (SAMPLE_RATE * 0.49) <= SAMPLE_RATE * 0.49.
Proof.
  unfold clip. split.
  - apply Rmin_glb; [lra |]. apply Rle_trans with 20.0; [lra | apply Rmax_r].
  - apply Rmin_l.
Qed.

(** With a modulation buffer every cutoff is clamped on both sides. *)
Lemma cutoff_buf_mod_in_range (flt : MoogFilter) (samples cm : list R) (fc : R) :
  In fc (render_cutoff_buf SAMPLE_RATE flt samples (Some cm)) ->
  20 <= fc <= SAMPLE_RATE * 0.49.
Proof.
  unfold render_cutoff_buf. intros Hin.
  apply in_map_iff in Hin. destruct Hin as [m [Hm _]]. subst fc.
  apply clip_in_range.
Qed.

(** Without one, only the upper clamp is applied: the lower bound holds
    when the cutoff field itself is at least 20. *)
Lemma cutoff_buf_nomod_in_range (flt : MoogFilter) (samples : list R) (fc : R) :
  20 <= cutoff flt ->
  In fc (render_cutoff_buf SAMPLE_RATE flt samples None) ->
  20 <= fc <= SAMPLE_RATE * 0.49.
Proof.
  unfold render_cutoff_buf. intros Hc Hin.
  apply repeat_spec in Hin. subst fc. split.
  - apply Rmin_glb; lra.
  - apply Rmin_r.
Qed.

End CutoffBuffer.

(** C2.  Without a [cutoff_mod] argument the lower clamp is missing: a
    filter whose cutoff field is 5 Hz hands the buffer [[5]] to the
    ladder update, and 5 is not in [[20, SAMPLE_RATE * 0.49]]. *)
Theorem cutoff_without_mod_not_clamped_below :
  render_cutoff_buf 44100 (mkMoogFilter 5 0 0 0 zero_taps) [0] None = [5]
  /\ ~ (20 <= 5 <= 44100 * 0.49).
Proof.
  split.
  - unfold render_cutoff_buf. cbn [length repeat cutoff].
    rewrite Rmin_left by lra. reflexivity.
  - lra.
Qed.

(** A zero sample on zero taps leaves everything at zero, whatever the
    gain computed from the cutoff. *)
Lemma step_zero (b : backend) (fc res sr : R) :
  step b 0 fc res zero_taps sr = (0, zero_taps).
Proof.
  destruct b; unfold step, numba_step, python_step, zero_taps;
    cbv zeta; cbn [s0 s1 s2 s3];
    [destruct (Rlt_dec fc (sr * 0.49)) |];
    (f_equal; [| f_equal]); unfold Rdiv; ring.
Qed.

Lemma ladder_loop_zero (b : backend) (n : nat) (cutoff_buf : list R) (res sr : R) :
  (n <= length cutoff_buf)%nat ->
  ladder_loop b (repeat 0 n) cutoff_buf res zero_taps sr
  = Some (repeat 0 n, zero_taps).
Proof.
  revert cutoff_buf.
  induction n as [| n IH]; intros cutoff_buf Hlen; [reflexivity |].
  destruct cutoff_buf as [| fc cutoff_buf]; [simpl in Hlen; lia |].
  cbn [repeat ladder_loop]. rewrite step_zero.
  rewrite IH by (simpl in Hlen; lia). reflexivity.
Qed.

(** In the stable range of the claim the divisions of the loop body
    are by positive numbers: the model's total division is not hiding a
    division by zero. *)
Lemma stable_denominators (fc res sr : R) :
  0 < sr -> 20 <= fc <= sr * 0.49 -> 0 <= res ->
  let g := 2.0 * sr * tan (PI * Rmin fc (sr * 0.49) / sr) / (2.0 * sr) in
  let G := g / (1.0 + g) in
  0 < g /\ 0 < 1.0 + g /\ 0 < G < 1 /\ 1 <= 1.0 + res * 4.0 * G * G * G * G.
Proof.
  intros Hsr Hfc Hres. cbv zeta.
  pose proof PI_RGT_0 as Hpi.
  rewrite Rmin_left by lra.
  set (g := 2.0 * sr * tan (PI * fc / sr) / (2.0 * sr)).
  set (G := g / (1.0 + g)).
  assert (Hang : 0 < PI * fc / sr < PI / 2).
  { assert (Hq : 0 < fc / sr <= 0.49).
    { split.
      - apply Rdiv_lt_0_compat; lra.
      - apply Rmult_le_reg_r with sr; [lra |].
        unfold Rdiv. rewrite Rmult_assoc, Rinv_l by lra. lra. }
    replace (PI * fc / sr) with (PI * (fc / sr)) by (unfold Rdiv; ring).
    split; nra. }
  assert (Ht : 0 < tan (PI * fc / sr)) by (apply tan_gt_0; lra).
  assert (Hg : g = tan (PI * fc / sr)) by (unfold g; unlit; field; lra).
  assert (Hg0 : 0 < g) by lra.
  assert (HG : G * (1.0 + g) = g) by (unfold G; unlit; field; lra).
  assert (HG0 : 0 < G) by (unfold G; apply Rdiv_lt_0_compat; lra).
  assert (HG1 : G < 1) by nra.
  repeat split; try lra.
  assert (H2 : 0 <= G * G) by nra.
  assert (H4 : 0 <= G * G * (G * G)) by nra.
  nra.
Qed.

(** C8.  Zero-input zero-output: with a cutoff in [[20,
    SAMPLE_RATE*0.49]], a resonance in [[0,1]] and all four taps at
    zero, [MoogFilter.render] on an all-zero buffer (without modulation, or
    with a modulation buffer of the same length) returns an all-zero
    buffer and leaves the filter, in particular its four taps, exactly
    as it was; this holds for both backends. *)
Theorem zero_input_zero_output (SAMPLE_RATE : R) (b : backend)
    (flt : MoogFilter) (n : nat) (cutoff_mod : option (list R)) :
  20 <= cutoff flt <= SAMPLE_RATE * 0.49 ->
  0 <= resonance flt <= 1 ->
  _state flt = zero_taps ->
  match cutoff_mod with Some cm => length cm = n | None => True end ->
  render SAMPLE_RATE b flt (repeat 0 n) cutoff_mod = Some (repeat 0 n, flt).
Proof.
  intros _ _ Hst Hlen. unfold render, _moog_ladder_process.
  rewrite Hst, ladder_loop_zero.
  - destruct flt as [c r ea kt st]. cbn in Hst |- *. subst st. reflexivity.
  - unfold render_cutoff_buf. destruct cutoff_mod as [cm |].
    + rewrite length_map. lia.
    + rewrite !repeat_length. lia.
Qed.

Lemma zero_input_zero_output_witness :
  render 44100 Python init (repeat 0 4) None = Some (repeat 0 4, init).
Proof.
  apply zero_input_zero_output.
  - unfold init; cbn [cutoff]; lra.
  - unfold init; cbn [resonance]; lra.
  - reflexivity.
  - exact I.
Defined.

End FilterSpec.

(* ================================================================== *)
(** * Properties of the ADSR envelope *)

Module EnvelopeSpec.
Import Envelope.

Lemma nth_unit_range (l : list R) (i : nat) :
  Forall unit_range l -> unit_range (nth i l 0).
Proof.
  intros Hl. destruct (Nat.lt_ge_cases i (length l)) as [Hi | Hi].
  - rewrite Forall_forall in Hl. apply Hl, nth_In, Hi.
  - rewrite nth_overflow by exact Hi. unfold unit_range. lra.
Qed.

Lemma min_time_pos : 0 < _MIN_TIME.
Proof. unfold _MIN_TIME. lra. Qed.

Lemma rate_ge (x sr : R) : 0 < sr -> _MIN_TIME * sr <= Rmax x _MIN_TIME * sr.
Proof.
  intros Hsr. apply Rmult_le_compat_r; [lra | apply Rmax_r].
Qed.

Lemma rate_pos (x sr : R) : 0 < sr -> 0 < Rmax x _MIN_TIME * sr.
Proof.
  intros Hsr. pose proof (rate_ge x sr Hsr). pose proof min_time_pos. nra.
Qed.

Section Blocks.

Variable SAMPLE_RATE : R.
Variable CONTROL_RATE_DIVIDER : nat.
Hypothesis divider_pos : (0 < CONTROL_RATE_DIVIDER)%nat.

Lemma advance_sustain (e : ADSR) (n : nat) :
  sustain (_advance SAMPLE_RATE e n) = sustain e.
Proof.
  unfold _advance. destruct (_state e); cbv zeta;
    repeat match goal with |- context [if ?c then _ else _] => destruct c end;
    reflexivity.
Qed.

Lemma advance_release (e : ADSR) (n : nat) :
  release (_advance SAMPLE_RATE e n) = release e.
Proof.
  unfold _advance. destruct (_state e); cbv zeta;
    repeat match goal with |- context [if ?c then _ else _] => destruct c end;
    reflexivity.
Qed.

(** Every block handed to [_advance] by [render] has at most
    [CONTROL_RATE_DIVIDER] samples, and the blocks add up to the
    requested number of samples. *)
Lemma block_size_le (n i : nat) :
  (block_size CONTROL_RATE_DIVIDER n i <= CONTROL_RATE_DIVIDER)%nat.
Proof.
  unfold block_size.
  destruct (i <? n / CONTROL_RATE_DIVIDER)%nat; [lia |].
  pose proof (Nat.mod_upper_bound n CONTROL_RATE_DIVIDER). lia.
Qed.

Lemma block_sizes_eq (n : nat) :
  map (block_size CONTROL_RATE_DIVIDER n)
      (seq 0 (total_blocks CONTROL_RATE_DIVIDER n))
  = repeat CONTROL_RATE_DIVIDER (n / CONTROL_RATE_DIVIDER)
    ++ (if (n mod CONTROL_RATE_DIVIDER =? 0)%nat then []
        else [(n mod CONTROL_RATE_DIVIDER)%nat]).
Proof.
  unfold total_blocks. set (q := (n / CONTROL_RATE_DIVIDER)%nat).
  set (r := (n mod CONTROL_RATE_DIVIDER)%nat).
  rewrite seq_app, map_app. f_equal.
  - assert (Hgen : forall k, (k <= q)%nat ->
        map (block_size CONTROL_RATE_DIVIDER n) (seq 0 k)
        = repeat CONTROL_RATE_DIVIDER k).
    { induction k as [| k IH]; intros Hk; [reflexivity |].
      rewrite seq_S, map_app, IH by lia. cbn [map Nat.add].
      unfold block_size. fold q.
      destruct (Nat.ltb_spec k q) as [_ | Hge]; [| lia].
      rewrite <- repeat_cons. reflexivity. }
    apply Hgen. lia.
  - cbn [Nat.add]. destruct (r =? 0)%nat; [reflexivity |].
    cbn [seq map]. unfold block_size. fold q r.
    rewrite Nat.ltb_irrefl. reflexivity.
Qed.

Lemma list_sum_repeat (c k : nat) : list_sum (repeat c k) = (k * c)%nat.
Proof.
  induction k as [| k IH]; [reflexivity |].
  cbn [repeat].
  change (list_sum (c :: repeat c k)) with (c + list_sum (repeat c k))%nat.
  rewrite IH. lia.
Qed.

Lemma block_sizes_sum (n : nat) :
  list_sum (map (block_size CONTROL_RATE_DIVIDER n)
              (seq 0 (total_blocks CONTROL_RATE_DIVIDER n))) = n.
Proof.
  rewrite block_sizes_eq, list_sum_app, list_sum_repeat.
  pose proof (Nat.div_mod_eq n CONTROL_RATE_DIVIDER) as Hdm.
  destruct (Nat.eqb_spec (n mod CONTROL_RATE_DIVIDER) 0) as [Hr | Hr];
    simpl; lia.
Qed.

End Blocks.


Section LevelInvariant.

Variable SAMPLE_RATE : R.
Variable CONTROL_RATE_DIVIDER : nat.
Hypothesis divider_pos : (0 < CONTROL_RATE_DIVIDER)%nat.
Hypothesis divider_small : INR CONTROL_RATE_DIVIDER < _MIN_TIME * SAMPLE_RATE.

Lemma sample_rate_pos : 0 < SAMPLE_RATE.
Proof.
  pose proof (pos_INR CONTROL_RATE_DIVIDER). pose proof min_time_pos. nra.
Qed.

(** A block is a fraction of every stage's duration. *)
Lemma block_fraction (x : R) (n : nat) :
  (n <= CONTROL_RATE_DIVIDER)%nat ->
  0 <= INR n / (Rmax x _MIN_TIME * SAMPLE_RATE) <= 1.
Proof.
  intros Hn. pose proof sample_rate_pos as Hsr.
  pose proof (rate_pos x SAMPLE_RATE Hsr) as Hr.
  pose proof (rate_ge x SAMPLE_RATE Hsr) as Hge.
  pose proof (pos_INR n) as Hn0. apply le_INR in Hn.
  split.
  - apply Rmult_le_pos; [lra |]. left. apply Rinv_0_lt_compat, Hr.
  - apply Rmult_le_reg_r with (Rmax x _MIN_TIME * SAMPLE_RATE); [exact Hr |].
    unfold Rdiv. rewrite Rmult_assoc, Rinv_l by lra. lra.
Qed.

Lemma advance_level_ok (e : ADSR) (n : nat) :
  (n <= CONTROL_RATE_DIVIDER)%nat ->
  level_ok e -> level_ok (_advance SAMPLE_RATE e n).
Proof.
  intros Hn [Hs Hl]. unfold level_ok. rewrite advance_sustain.
  split; [exact Hs |].
  unfold _advance. destruct (_state e); cbv zeta.
  - (* idle *) cbn [update _level]. exact Hl.
  - (* attack *)
    pose proof (block_fraction (attack e) n Hn) as Hq.
    set (q := INR n / (Rmax (attack e) _MIN_TIME * SAMPLE_RATE)) in *.
    destruct (Rge_dec (_level e + q) 1.0); cbn [update _level]; lra.
  - (* decay *)
    pose proof (block_fraction (decay e) n Hn) as Hq.
    replace ((1.0 - sustain e) * INR n / (Rmax (decay e) _MIN_TIME * SAMPLE_RATE))
      with ((1.0 - sustain e) * (INR n / (Rmax (decay e) _MIN_TIME * SAMPLE_RATE)))
      by (unfold Rdiv; ring).
    set (q := INR n / (Rmax (decay e) _MIN_TIME * SAMPLE_RATE)) in *.
    destruct (Rle_dec (_level e - (1.0 - sustain e) * q) (sustain e));
      cbn [update _level]; [lra |]. nra.
  - (* sustain *) cbn [update _level]. exact Hs.
  - (* release *)
    pose proof (block_fraction (release e) n Hn) as Hq.
    replace (_level e * INR n / (Rmax (release e) _MIN_TIME * SAMPLE_RATE))
      with (_level e * (INR n / (Rmax (release e) _MIN_TIME * SAMPLE_RATE)))
      by (unfold Rdiv; ring).
    set (q := INR n / (Rmax (release e) _MIN_TIME * SAMPLE_RATE)) in *.
    destruct (Rlt_dec (_level e - _level e * q) 1e-5);
      cbn [update _level]; [lra |]. nra.
Qed.

Lemma control_loop_level_ok (sizes : list nat) (e : ADSR) :
  Forall (fun b => (b <= CONTROL_RATE_DIVIDER)%nat) sizes ->
  level_ok e ->
  level_ok (fst (control_loop SAMPLE_RATE e sizes))
  /\ Forall unit_range (snd (control_loop SAMPLE_RATE e sizes)).
Proof.
  revert e. induction sizes as [| b sizes IH]; intros e Hb He.
  - cbn. split; [exact He | constructor].
  - inversion Hb as [| ? ? Hb1 Hb2]; subst.
    pose proof (advance_level_ok e b Hb1 He) as He1.
    specialize (IH (_advance SAMPLE_RATE e b) Hb2 He1).
    cbn [control_loop].
    destruct (control_loop SAMPLE_RATE (_advance SAMPLE_RATE e b) sizes)
      as [e2 cv].
    cbn [fst snd] in *. destruct IH as [IH1 IH2].
    split; [exact IH1 |]. constructor; [apply He1 | exact IH2].
Qed.

Lemma ramp_block_unit_range (cv : list R) (n i : nat) :
  Forall unit_range cv ->
  Forall unit_range (ramp_block CONTROL_RATE_DIVIDER cv n i).
Proof.
  intros Hcv. unfold ramp_block.
  set (bs := block_size CONTROL_RATE_DIVIDER n i).
  destruct (Nat.eqb_spec bs 0) as [Hz | Hnz]; [constructor |].
  destruct (i =? 0)%nat.
  - apply Forall_forall. intros v Hv. apply repeat_spec in Hv. subst v.
    apply nth_unit_range, Hcv.
  - apply Forall_map, Forall_forall. intros j Hj. apply in_seq in Hj.
    pose proof (nth_unit_range cv (i - 1) Hcv) as Hp.
    pose proof (nth_unit_range cv i Hcv) as Hc.
    unfold unit_range in *.
    assert (Ht : 0 <= INR j / INR bs <= 1).
    { assert (Hbs : 0 < INR bs) by (apply lt_0_INR; lia).
      assert (Hj' : INR j <= INR bs) by (apply le_INR; lia).
      pose proof (pos_INR j). split.
      - apply Rmult_le_pos; [lra |]. left. apply Rinv_0_lt_compat, Hbs.
      - apply Rmult_le_reg_r with (INR bs); [exact Hbs |].
        unfold Rdiv. rewrite Rmult_assoc, Rinv_l by lra. lra. }
    set (t := INR j / INR bs) in *. nra.
Qed.

Lemma render_level_ok (e : ADSR) (n : nat) :
  level_ok e ->
  level_ok (snd (render SAMPLE_RATE CONTROL_RATE_DIVIDER e n))
  /\ Forall unit_range (fst (render SAMPLE_RATE CONTROL_RATE_DIVIDER e n)).
Proof.
  intros He. unfold render. cbv zeta.
  assert (Hsz : Forall (fun b => (b <= CONTROL_RATE_DIVIDER)%nat)
            (map (block_size CONTROL_RATE_DIVIDER n)
               (seq 0 (total_blocks CONTROL_RATE_DIVIDER n)))).
  { apply Forall_map, Forall_forall. intros i _.
    apply block_size_le, divider_pos. }
  pose proof (control_loop_level_ok _ e Hsz He) as [H1 H2].
  destruct (control_loop SAMPLE_RATE e _) as [e' cv]. cbn [fst snd] in *.
  destruct (total_blocks CONTROL_RATE_DIVIDER n <=? 1)%nat; cbn [fst snd].
  - split; [exact H1 |]. apply Forall_forall. intros v Hv.
    apply repeat_spec in Hv. subst v. apply H1.
  - split; [exact H1 |]. apply Forall_concat, Forall_map, Forall_forall.
    intros i _. apply ramp_block_unit_range, H2.
Qed.

Lemma run_call_level_ok (e : ADSR) (c : call) :
  level_ok e -> level_ok (run_call SAMPLE_RATE CONTROL_RATE_DIVIDER e c).
Proof.
  intros He. destruct c; cbn [run_call].
  - exact He.
  - unfold gate_off. destruct (_state e); exact He.
  - apply render_level_ok, He.
Qed.

(** C10.  Envelope-level invariant: with [sustain] in [[0,1]], any
    attack, decay and release, and [CONTROL_RATE_DIVIDER <
    MIN_TIME * SAMPLE_RATE], every sequence of gate_on, gate_off and
    render(n) calls applied to an envelope whose level is in [[0,1]]
    (a new envelope has level 0) leaves the level in [[0,1]], and
    every value of every rendered buffer lies in [[0,1]]. *)
Theorem level_stays_in_unit_range (e : ADSR) (cs : list call) :
  0 <= sustain e <= 1 ->
  0 <= _level e <= 1 ->
  0 <= _level (run_calls SAMPLE_RATE CONTROL_RATE_DIVIDER e cs) <= 1
  /\ Forall (Forall (fun v => 0 <= v <= 1))
       (rendered SAMPLE_RATE CONTROL_RATE_DIVIDER e cs).
Proof.
  intros Hs Hl. assert (He : level_ok e) by (split; assumption).
  clear Hs Hl. revert e He.
  induction cs as [| c cs IH]; intros e He.
  - cbn. split; [apply He | constructor].
  - pose proof (run_call_level_ok e c He) as He1.
    specialize (IH _ He1). destruct IH as [IH1 IH2].
    unfold run_calls in *. cbn [fold_left]. split; [exact IH1 |].
    destruct c; cbn [rendered]; try exact IH2.
    constructor; [| exact IH2]. apply render_level_ok, He.
Qed.

End LevelInvariant.

Lemma INR_16 : INR 16 = 16.
Proof. rewrite INR_IZR_INZ. reflexivity. Qed.

Lemma level_stays_in_unit_range_witness :
  0 <= _level (run_calls 44100 16 default [GateOn; RenderCall 256; GateOff]) <= 1
  /\ Forall (Forall (fun v => 0 <= v <= 1))
       (rendered 44100 16 default [GateOn; RenderCall 256; GateOff]).
Proof.
  apply level_stays_in_unit_range.
  - lia.
  - rewrite INR_16. unfold _MIN_TIME. lra.
  - unfold default, init; cbn [sustain]; lra.
  - unfold default, init; cbn [_level]; lra.
Defined.


(** ** Release: how long until idle *)

Lemma INR_13 : INR 13 = 13.
Proof. rewrite INR_IZR_INZ. reflexivity. Qed.

Lemma INR_45 : INR 45 = 45.
Proof. rewrite INR_IZR_INZ. reflexivity. Qed.

Lemma advance_release_keeps (sr : R) (e : ADSR) (n : nat) :
  _state e = Release ->
  let lv := _level e - _level e * INR n / (Rmax (release e) _MIN_TIME * sr) in
  1e-5 <= lv ->
  _advance sr e n = update e Release lv (_samples_in_state e + n).
Proof.
  intros Hst lv Hlv. unfold _advance. rewrite Hst. cbv zeta. fold lv.
  destruct (Rlt_dec lv 1e-5) as [Hlt | _]; [lra | reflexivity].
Qed.

(** C4, as stated, fails.  An envelope released from level 1 with
    [release = 0.001] s at 44100 Hz has a release time of 44.1 samples;
    after rendering 45 samples (blocks of 16, 16 and 13) its level is
    about 0.286 and it is still active. *)
Lemma release_time_is_not_enough :
  let e := gate_off (mkADSR 0.01 0.1 0.7 0.001 Decay 1 0) in
  _state e = Release /\ _level e <= 1 /\
  Rmax (release e) _MIN_TIME * 44100 <= INR 45 /\
  is_active (snd (render 44100 16 e 45)) = true.
Proof.
  cbv zeta. unfold gate_off, update.
  cbn [_state _level release attack decay sustain].
  split; [reflexivity |]. split; [lra |]. split.
  { rewrite INR_45. unfold _MIN_TIME. rewrite Rmax_left by lra. lra. }
  unfold render.
  change (total_blocks 16 45) with 3%nat.
  change (map (block_size 16 45) (seq 0 3)) with [16; 16; 13]%nat.
  set (e0 := mkADSR 0.01 0.1 0.7 0.001 Release 1 0).
  assert (Hrate : Rmax 0.001 _MIN_TIME * 44100 = 44.1).
  { unfold _MIN_TIME. rewrite Rmax_left by lra. lra. }
  assert (H1 : exists l1 k1, _advance 44100 e0 16 = mkADSR 0.01 0.1 0.7 0.001 Release l1 k1
                 /\ 0.6 <= l1).
  { eexists. eexists. split.
    - rewrite advance_release_keeps; [reflexivity | reflexivity |].
      unfold e0. cbn [_level release]. rewrite Hrate, INR_16. lra.
    - unfold e0. cbn [_level release]. rewrite Hrate, INR_16. lra. }
  destruct H1 as [l1 [k1 [E1 Hl1]]].
  assert (H2 : exists l2 k2,
            _advance 44100 (mkADSR 0.01 0.1 0.7 0.001 Release l1 k1) 16
            = mkADSR 0.01 0.1 0.7 0.001 Release l2 k2 /\ 0.3 <= l2).
  { eexists. eexists. split.
    - rewrite advance_release_keeps; [reflexivity | reflexivity |].
      cbn [_level release]. rewrite Hrate, INR_16. lra.
    - cbn [_level release]. rewrite Hrate, INR_16. lra. }
  destruct H2 as [l2 [k2 [E2 Hl2]]].
  assert (H3 : exists l3 k3,
            _advance 44100 (mkADSR 0.01 0.1 0.7 0.001 Release l2 k2) 13
            = mkADSR 0.01 0.1 0.7 0.001 Release l3 k3).
  { eexists. eexists.
    rewrite advance_release_keeps; [reflexivity | reflexivity |].
    cbn [_level release]. rewrite Hrate, INR_13. lra. }
  destruct H3 as [l3 [k3 E3]].
  cbn [control_loop]. rewrite E1, E2, E3. reflexivity.
Qed.


(** [exp 12] exceeds 100000: twelve release times bring a level of at
    most 1 under the idle threshold [1e-5]. *)
Lemma exp_double (x c d : R) : 0 <= c -> c <= exp x -> d <= c * c -> d <= exp (x + x).
Proof. intros Hc Hx Hd. rewrite exp_plus. nra. Qed.

Lemma exp_12_large : 100000 < exp 12.
Proof.
  assert (H0 : 1.046875 <= exp (3 / 64))
    by (pose proof (exp_ineq1_le (3 / 64)); lra).
  assert (H1 : 1.0959 <= exp (3 / 32)).
  { replace (3 / 32) with (3 / 64 + 3 / 64) by lra.
    apply exp_double with 1.046875; lra. }
  assert (H2 : 1.2009 <= exp (3 / 16)).
  { replace (3 / 16) with (3 / 32 + 3 / 32) by lra.
    apply exp_double with 1.0959; lra. }
  assert (H3 : 1.4421 <= exp (3 / 8)).
  { replace (3 / 8) with (3 / 16 + 3 / 16) by lra.
    apply exp_double with 1.2009; lra. }
  assert (H4 : 2.0796 <= exp (3 / 4)).
  { replace (3 / 4) with (3 / 8 + 3 / 8) by lra.
    apply exp_double with 1.4421; lra. }
  assert (H5 : 4.3247 <= exp (3 / 2)).
  { replace (3 / 2) with (3 / 4 + 3 / 4) by lra.
    apply exp_double with 2.0796; lra. }
  assert (H6 : 18.7 <= exp 3).
  { replace 3 with (3 / 2 + 3 / 2) by lra.
    apply exp_double with 4.3247; lra. }
  assert (H7 : 349.6 <= exp 6).
  { replace 6 with (3 + 3) by lra.
    apply exp_double with 18.7; lra. }
  assert (H8 : 122220 <= exp 12).
  { replace 12 with (6 + 6) by lra.
    apply exp_double with 349.6; lra. }
  lra.
Qed.

Lemma exp_neg_12_small : exp (Ropp 12) < 1e-5.
Proof.
  rewrite exp_Ropp. pose proof exp_12_large as H.
  assert (Hinv : / exp 12 < / 100000).
  { apply Rinv_lt_contravar; [| exact H].
    apply Rmult_lt_0_compat; lra. }
  lra.
Qed.

Lemma map_zero (f : nat -> R) (l : list nat) :
  (forall j, f j = 0) -> map f l = repeat 0 (length l).
Proof.
  intros Hf. induction l as [| j l IH]; [reflexivity |].
  cbn [map length repeat]. rewrite Hf, IH. reflexivity.
Qed.

Lemma concat_repeat (x : R) (f : nat -> nat) (l : list nat) :
  concat (map (fun i => repeat x (f i)) l) = repeat x (list_sum (map f l)).
Proof.
  induction l as [| i l IH]; [reflexivity |].
  cbn [map concat]. rewrite IH.
  change (list_sum (f i :: map f l)) with (f i + list_sum (map f l))%nat.
  rewrite repeat_app. reflexivity.
Qed.

Section Release.

Variable SAMPLE_RATE : R.
Variable CONTROL_RATE_DIVIDER : nat.
Hypothesis sample_rate_positive : 0 < SAMPLE_RATE.
Hypothesis divider_pos : (0 < CONTROL_RATE_DIVIDER)%nat.

Lemma advance_silent (e : ADSR) (n : nat) :
  silent e -> silent (_advance SAMPLE_RATE e n).
Proof.
  intros [Hst Hl]. unfold silent, _advance. rewrite Hst.
  cbn [update _state _level]. split; [reflexivity | exact Hl].
Qed.

Lemma advance_fading (rel T : R) (e : ADSR) (n : nat) :
  0 <= T ->
  fading SAMPLE_RATE rel T e -> fading SAMPLE_RATE rel (T + INR n) (_advance SAMPLE_RATE e n).
Proof.
  intros HT [Hrel Hcase]. split; [rewrite advance_release; exact Hrel |].
  destruct Hcase as [Hs | [Hst [Hl Hthr]]].
  - left. apply advance_silent, Hs.
  - pose proof (rate_pos rel SAMPLE_RATE sample_rate_positive) as Hrate.
    unfold _advance. rewrite Hst. cbv zeta. rewrite Hrel.
    set (rate := Rmax rel _MIN_TIME * SAMPLE_RATE) in *.
    replace (_level e * INR n / rate) with (_level e * (INR n / rate))
      by (unfold Rdiv; ring).
    assert (Hq : 0 <= INR n / rate).
    { apply Rmult_le_pos; [apply pos_INR |]. left. apply Rinv_0_lt_compat, Hrate. }
    set (q := INR n / rate) in *.
    destruct (Rlt_dec (_level e - _level e * q) 1e-5) as [Hlt | Hge].
    + left. split; cbn [update _state _level]; [reflexivity | lra].
    + right. cbn [update _state _level].
      split; [reflexivity |]. split; [| intros _; lra].
      split; [lra |].
      replace (- ((T + INR n) / rate)) with (- (T / rate) + - q)
        by (unfold q, Rdiv; ring).
      rewrite exp_plus.
      pose proof (exp_ineq1_le (- q)) as Hexp.
      pose proof (exp_pos (- (T / rate))) as Hpos.
      set (a := exp (- (T / rate))) in *. set (b := exp (- q)) in *.
      assert (Hlv : 0 < _level e) by nra.
      assert (Hq1 : 0 < 1 - q) by nra.
      assert (Hstep : _level e * (1 - q) <= a * b).
      { apply Rmult_le_compat; lra. }
      lra.
Qed.

Lemma control_loop_fading (rel : R) (sizes : list nat) (T : R) (e : ADSR) :
  0 <= T ->
  fading SAMPLE_RATE rel T e ->
  fading SAMPLE_RATE rel (T + INR (list_sum sizes)) (fst (control_loop SAMPLE_RATE e sizes)).
Proof.
  revert T e. induction sizes as [| b sizes IH]; intros T e HT He.
  - cbn. rewrite Rplus_0_r. exact He.
  - cbn [control_loop].
    pose proof (advance_fading rel T e b HT He) as He1.
    assert (HT1 : 0 <= T + INR b) by (pose proof (pos_INR b); lra).
    specialize (IH _ _ HT1 He1).
    destruct (control_loop SAMPLE_RATE (_advance SAMPLE_RATE e b) sizes)
      as [e2 cv].
    cbn [fst] in *.
    change (list_sum (b :: sizes)) with (b + list_sum sizes)%nat.
    rewrite plus_INR, <- Rplus_assoc. exact IH.
Qed.

Lemma render_state (e : ADSR) (n : nat) :
  snd (render SAMPLE_RATE CONTROL_RATE_DIVIDER e n)
  = fst (control_loop SAMPLE_RATE e
           (map (block_size CONTROL_RATE_DIVIDER n)
              (seq 0 (total_blocks CONTROL_RATE_DIVIDER n)))).
Proof.
  unfold render. cbv zeta.
  destruct (control_loop SAMPLE_RATE e _) as [e' cv].
  destruct (total_blocks CONTROL_RATE_DIVIDER n <=? 1)%nat; reflexivity.
Qed.

Lemma render_fading (rel T : R) (e : ADSR) (n : nat) :
  0 <= T ->
  fading SAMPLE_RATE rel T e ->
  fading SAMPLE_RATE rel (T + INR n) (snd (render SAMPLE_RATE CONTROL_RATE_DIVIDER e n)).
Proof.
  intros HT He. rewrite render_state.
  pose proof (control_loop_fading rel
                (map (block_size CONTROL_RATE_DIVIDER n)
                   (seq 0 (total_blocks CONTROL_RATE_DIVIDER n))) T e HT He) as H.
  rewrite block_sizes_sum in H by exact divider_pos. exact H.
Qed.

Lemma renders_fading (rel : R) (ns : list nat) (T : R) (e : ADSR) :
  0 <= T ->
  fading SAMPLE_RATE rel T e ->
  fading SAMPLE_RATE rel (T + INR (list_sum ns))
    (run_calls SAMPLE_RATE CONTROL_RATE_DIVIDER e (map RenderCall ns)).
Proof.
  revert T e. induction ns as [| n ns IH]; intros T e HT He.
  - cbn. rewrite Rplus_0_r. exact He.
  - unfold run_calls in *. cbn [map fold_left run_call].
    pose proof (render_fading rel T e n HT He) as He1.
    assert (HT1 : 0 <= T + INR n) by (pose proof (pos_INR n); lra).
    specialize (IH _ _ HT1 He1).
    change (list_sum (n :: ns)) with (n + list_sum ns)%nat.
    rewrite plus_INR, <- Rplus_assoc. exact IH.
Qed.

(** A silent envelope renders exact zeros and stays silent. *)
Lemma control_loop_silent (sizes : list nat) (e : ADSR) :
  silent e ->
  silent (fst (control_loop SAMPLE_RATE e sizes))
  /\ Forall (eq 0) (snd (control_loop SAMPLE_RATE e sizes)).
Proof.
  revert e. induction sizes as [| b sizes IH]; intros e He.
  - cbn. split; [exact He | constructor].
  - cbn [control_loop].
    pose proof (advance_silent e b He) as He1.
    specialize (IH _ He1).
    destruct (control_loop SAMPLE_RATE (_advance SAMPLE_RATE e b) sizes)
      as [e2 cv].
    cbn [fst snd] in *. destruct IH as [IH1 IH2].
    split; [exact IH1 |]. constructor; [| exact IH2].
    symmetry. apply He1.
Qed.

Lemma nth_zero (l : list R) (i : nat) : Forall (eq 0) l -> nth i l 0 = 0.
Proof.
  intros Hl. destruct (Nat.lt_ge_cases i (length l)) as [Hi | Hi].
  - rewrite Forall_forall in Hl. symmetry. apply Hl, nth_In, Hi.
  - apply nth_overflow, Hi.
Qed.

Lemma ramp_block_zero (cv : list R) (n i : nat) :
  Forall (eq 0) cv ->
  ramp_block CONTROL_RATE_DIVIDER cv n i
  = repeat 0 (block_size CONTROL_RATE_DIVIDER n i).
Proof.
  intros Hcv. unfold ramp_block.
  set (bs := block_size CONTROL_RATE_DIVIDER n i).
  destruct (Nat.eqb_spec bs 0) as [Hz | Hnz]; [rewrite Hz; reflexivity |].
  destruct (i =? 0)%nat.
  - rewrite nth_zero by exact Hcv. reflexivity.
  - rewrite !nth_zero by exact Hcv.
    transitivity (repeat 0 (length (seq 0 bs))).
    + apply map_zero. intros j. ring.
    + rewrite length_seq. reflexivity.
Qed.

Lemma render_silent (e : ADSR) (n : nat) :
  silent e ->
  fst (render SAMPLE_RATE CONTROL_RATE_DIVIDER e n) = repeat 0 n
  /\ silent (snd (render SAMPLE_RATE CONTROL_RATE_DIVIDER e n)).
Proof.
  intros He. split.
  - unfold render. cbv zeta.
    pose proof (control_loop_silent
                  (map (block_size CONTROL_RATE_DIVIDER n)
                     (seq 0 (total_blocks CONTROL_RATE_DIVIDER n))) e He)
      as [H1 H2].
    destruct (control_loop SAMPLE_RATE e _) as [e' cv]. cbn [fst snd] in *.
    destruct (total_blocks CONTROL_RATE_DIVIDER n <=? 1)%nat; cbn [fst].
    + destruct H1 as [_ Hl]. rewrite Hl. reflexivity.
    + rewrite (map_ext_in _ (fun i => repeat 0 (block_size CONTROL_RATE_DIVIDER n i)))
        by (intros i _; apply ramp_block_zero, H2).
      rewrite concat_repeat, block_sizes_sum by exact divider_pos.
      reflexivity.
  - rewrite render_state. apply control_loop_silent, He.
Qed.

Lemma rendered_silent (ms : list nat) (e : ADSR) :
  silent e ->
  rendered SAMPLE_RATE CONTROL_RATE_DIVIDER e (map RenderCall ms)
  = map (repeat 0) ms.
Proof.
  revert e. induction ms as [| m ms IH]; intros e He; [reflexivity |].
  cbn [map rendered].
  destruct (render_silent e m He) as [Hout Hnext].
  rewrite Hout, IH by exact Hnext. reflexivity.
Qed.

(** C4, amended.  An envelope in release state with level in [[0,1]]
    is idle (is_active false, level exactly 0) after rendering at
    least [12 * max(release, MIN_TIME) * SAMPLE_RATE] further samples,
    in any number of render calls, and every buffer it renders from
    then on is exactly zero. *)
Theorem release_reaches_idle (e : ADSR) (ns ms : list nat) :
  _state e = Release ->
  0 <= _level e <= 1 ->
  12 * (Rmax (release e) _MIN_TIME * SAMPLE_RATE) <= INR (list_sum ns) ->
  let e' := run_calls SAMPLE_RATE CONTROL_RATE_DIVIDER e (map RenderCall ns) in
  is_active e' = false /\ _level e' = 0 /\
  rendered SAMPLE_RATE CONTROL_RATE_DIVIDER e' (map RenderCall ms)
  = map (repeat 0) ms.
Proof.
  intros Hst Hl Hlong e'.
  pose proof (rate_pos (release e) SAMPLE_RATE sample_rate_positive) as Hrate.
  set (rate := Rmax (release e) _MIN_TIME * SAMPLE_RATE) in *.
  assert (H0 : fading SAMPLE_RATE (release e) 0 e).
  { split; [reflexivity |]. right. split; [exact Hst |].
    split; [| intros Habs; lra].
    unfold Rdiv. rewrite Rmult_0_l, Ropp_0, exp_0. exact Hl. }
  pose proof (renders_fading (release e) ns 0 e (Rle_refl 0) H0) as Hend.
  fold e' in Hend. rewrite Rplus_0_l in Hend.
  assert (Hsilent : silent e').
  { destruct Hend as [_ [Hs | [_ [[_ Hup] Hthr]]]]; [exact Hs |].
    exfalso. fold rate in Hup.
    set (T := INR (list_sum ns)) in *.
    assert (HT : 0 < T) by lra.
    specialize (Hthr HT).
    assert (Hexp : exp (- (T / rate)) <= exp (Ropp 12)).
    { assert (Hq : 12 <= T / rate).
      { apply Rmult_le_reg_r with rate; [exact Hrate |].
        unfold Rdiv. rewrite Rmult_assoc, Rinv_l by lra. lra. }
      destruct (Req_dec (T / rate) 12) as [Heq | Hne].
      - rewrite Heq. lra.
      - left. apply exp_increasing. lra. }
    pose proof exp_neg_12_small. lra. }
  destruct Hsilent as [Hidle Hzero].
  split; [unfold is_active; rewrite Hidle; reflexivity |].
  split; [exact Hzero |].
  apply rendered_silent. split; assumption.
Qed.

End Release.

Lemma release_reaches_idle_witness :
  let e := mkADSR 0.01 0.1 0.7 0.001 Release 1 0 in
  let e' := run_calls 44100 16 e (map RenderCall [530%nat]) in
  is_active e' = false /\ _level e' = 0 /\
  rendered 44100 16 e' (map RenderCall [256%nat]) = map (repeat 0) [256%nat].
Proof.
  intros e.
  apply (release_reaches_idle 44100 16).
  - lra.
  - lia.
  - reflexivity.
  - cbn [_level e]. lra.
  - cbn [release e list_sum fold_right]. unfold _MIN_TIME.
    rewrite Rmax_left by lra.
    replace (INR (530 + 0)) with 530 by (rewrite INR_IZR_INZ; reflexivity).
    lra.
Defined.

End EnvelopeSpec.

(* ================================================================== *)
(** * Properties of the oscillator *)

Module OscillatorSpec.
Import Oscillator.


Section Phase.

Variable WAVETABLE_SIZE : nat.
Variable SAMPLE_RATE : R.

(** C7.  With a level of 0, [render] returns [n_samples] exact zeros
    and leaves every field of the oscillator, the phase accumulator
    included, unchanged. *)
Theorem render_level_zero (osc : Oscillator) (freq : R) (n_samples : nat)
    (pitch_mod : option (list R)) :
  level osc = 0 ->
  render WAVETABLE_SIZE SAMPLE_RATE osc freq n_samples pitch_mod
  = (Some (repeat 0 n_samples), osc).
Proof.
  intros Hl. unfold render. rewrite Hl.
  destruct (Rle_dec 0 0.0) as [_ | Hn]; [| lra].
  rewrite repeat_zero_lit. reflexivity.
Qed.





Lemma cumsum_from_length (l : list R) (acc : R) :
  length (cumsum_from acc l) = length l.
Proof.
  revert acc. induction l as [| x l IH]; intros acc; [reflexivity |].
  cbn [cumsum_from length]. rewrite IH. reflexivity.
Qed.


Lemma render_phases_length (osc : Oscillator) (incs : list R) :
  length (render_phases osc incs) = length incs.
Proof.
  unfold render_phases, cumsum.
  rewrite length_map, length_combine, cumsum_from_length. lia.
Qed.




End Phase.

Lemma render_level_zero_witness :
  render 2048 44100 (mkOscillator "saw" 0 0 0 0 0.5 0.25) 440 3 None
  = (Some (repeat 0 3), mkOscillator "saw" 0 0 0 0 0.5 0.25).
Proof. apply render_level_zero. reflexivity. Defined.


(** ** Amplitude of the rendered samples *)


(** The accumulation loop computes the sum of its terms. *)
Lemma accumulate_sum (ks : list nat) (term : nat -> R) :
  accumulate ks term = fold_right Rplus 0 (map term ks).
Proof.
  unfold accumulate.
  assert (Hgen : forall a, fold_left (fun acc k => acc + term k) ks a
                           = a + fold_right Rplus 0 (map term ks)).
  { induction ks as [| k ks IH]; intros a; cbn [fold_left map fold_right].
    - lra.
    - rewrite IH. lra. }
  rewrite Hgen. lra.
Qed.









Section Amplitude.

Variable WAVETABLE_SIZE : nat.
Variable SAMPLE_RATE : R.






End Amplitude.



(** ** The band-limited saw overshoots *)















End OscillatorSpec.

(* ================================================================== *)
(** * Properties of the audio engine *)

Module EngineSpec.
Import Engine.

Lemma tanh_bounds (x : R) : -1 < tanh x < 1.
Proof.
  unfold tanh, sinh, cosh.
  pose proof (exp_pos x) as Ha. pose proof (exp_pos (- x)) as Hb.
  set (a := exp x) in *. set (b := exp (- x)) in *.
  replace ((a - b) / 2 / ((a + b) / 2)) with ((a - b) / (a + b))
    by (field; lra).
  assert (Hs : 0 < a + b) by lra.
  assert (Hq : (a - b) / (a + b) * (a + b) = a - b) by (field; lra).
  split; nra.
Qed.

Lemma Rabs_tanh_le_1 (x : R) : Rabs (tanh x) <= 1.
Proof.
  pose proof (tanh_bounds x). apply Rabs_le. lra.
Qed.

Lemma fold_Rmax_spec (l : list R) (x : R) :
  (fold_left Rmax l x = x \/ In (fold_left Rmax l x) l)
  /\ x <= fold_left Rmax l x
  /\ Forall (fun y => y <= fold_left Rmax l x) l.
Proof.
  revert x. induction l as [| y l IH]; intros x.
  - cbn. split; [left; reflexivity |]. split; [lra | constructor].
  - cbn [fold_left]. destruct (IH (Rmax x y)) as [Hin [Hge Hall]].
    pose proof (Rmax_l x y). pose proof (Rmax_r x y).
    split; [| split].
    + destruct Hin as [Heq | Hin]; [| right; right; exact Hin].
      rewrite Heq. unfold Rmax. destruct (Rle_dec x y).
      * right. left. reflexivity.
      * left. reflexivity.
    + lra.
    + constructor; [lra | exact Hall].
Qed.

(** [np.max] returns an element that bounds all the others. *)
Lemma np_max_spec (l : list R) (m : R) :
  np_max l = Ok m -> In m l /\ Forall (fun y => y <= m) l.
Proof.
  destruct l as [| x l]; [discriminate |].
  cbn [np_max]. intros H. injection H as <-.
  destruct (fold_Rmax_spec l x) as [Hin [Hge Hall]]. split.
  - destruct Hin as [Heq | Hin]; [left; symmetry; exact Heq | right; exact Hin].
  - constructor; assumption.
Qed.

Section Callback.

Context {Channel : Type} `{API : ChannelAPI Channel}.
Variable NUM_CHANNELS : nat.

Lemma process_midi_volume (eng eng' : AudioEngine) (msg : message) :
  _process_midi NUM_CHANNELS eng msg = Ok eng' ->
  _master_volume eng' = _master_volume eng.
Proof.
  unfold _process_midi, bind. intros H.
  destruct (route NUM_CHANNELS eng msg) as [k |]; [| discriminate].
  destruct (item (nth_error (channels eng) k)) as [ch |]; [| discriminate].
  match type of H with
  | match ?m with Ok _ => _ | Raise _ => _ end = _ =>
      destruct m as [ch' |]; [| discriminate]
  end.
  injection H as <-. reflexivity.
Qed.

Lemma drain_volume (queue : list message) (eng eng' : AudioEngine) :
  drain NUM_CHANNELS eng queue = Ok eng' ->
  _master_volume eng' = _master_volume eng.
Proof.
  revert eng. induction queue as [| msg queue IH]; intros eng H.
  - cbn in H. injection H as <-. reflexivity.
  - cbn [drain] in H. unfold bind in H.
    destruct (_process_midi NUM_CHANNELS eng msg) as [e1 |] eqn:E; [| discriminate].
    rewrite (IH _ H). apply (process_midi_volume _ _ _ E).
Qed.

Variable frames : nat.
Hypothesis render_frames :
  forall ch : Channel, length (fst (render ch frames)) = frames.

(** Accumulating the channels never raises, and sample [i] of the
    result is the running sum of the channels' samples. *)
Lemma render_channels_spec (chs : list Channel) (out : list R) :
  length out = frames ->
  exists out' chs',
    render_channels chs frames out = Ok (out', chs')
    /\ length out' = frames
    /\ forall i, (i < frames)%nat ->
         nth i out' 0
         = fold_left (fun acc ch => acc + nth i (fst (render ch frames)) 0)
             chs (nth i out 0).
Proof.
  revert out. induction chs as [| ch chs IH]; intros out Hout.
  - exists out, []. cbn. repeat split; auto.
  - cbn [render_channels fold_left].
    pose proof (render_frames ch) as Hlen.
    destruct (render ch frames) as [buf ch'] eqn:E. cbn [fst] in Hlen.
    unfold add_into, bind. rewrite Hlen, Hout, Nat.eqb_refl.
    set (out1 := map (fun p => fst p + snd p) (combine out buf)).
    assert (Hout1 : length out1 = frames).
    { unfold out1. rewrite length_map, length_combine. lia. }
    destruct (IH out1 Hout1) as [out' [chs' [Hr [Hl Hn]]]].
    rewrite Hr. exists out', (ch' :: chs'). cbn [fst snd].
    split; [reflexivity |]. split; [exact Hl |].
    intros i Hi. rewrite (Hn i Hi). f_equal.
    unfold out1.
    rewrite (nth_indep _ 0 (fst (0, 0) + snd (0, 0)))
      by (rewrite length_map, length_combine; lia).
    rewrite (map_nth (fun p => fst p + snd p) (combine out buf) (0, 0) i).
    rewrite combine_nth by lia. reflexivity.
Qed.

(** C9.  A callback for [frames >= 1] whose queued messages are
    processed without an exception writes, for every sample, the
    hyperbolic tangent of the mixed sample times the master volume,
    so every written sample has absolute value at most 1; afterwards
    [peak_level] is the largest absolute value in the block, hence at
    most 1.  (The conversion of the block to the device's float32
    format is the identity in this model.) *)
Theorem audio_callback_soft_clip (eng eng1 : AudioEngine) :
  (1 <= frames)%nat ->
  drain NUM_CHANNELS
    (mkAudioEngine (channels eng) [] (_running eng) (_master_volume eng)
       (_peak_level eng)) (midi_queue eng) = Ok eng1 ->
  exists eng2 out,
    _audio_callback NUM_CHANNELS eng frames = Ok (eng2, out)
    /\ length out = frames
    /\ (forall i, (i < frames)%nat ->
          nth i out 0
          = tanh (mixed_sample (channels eng1) frames i * _master_volume eng))
    /\ Forall (fun y => Rabs y <= 1) out
    /\ In (_peak_level eng2) (map Rabs out)
    /\ Forall (fun y => Rabs y <= _peak_level eng2) out
    /\ _peak_level eng2 <= 1.
Proof.
  intros Hframes Hdrain.
  pose proof (drain_volume _ _ _ Hdrain) as Hvol. cbn [_master_volume] in Hvol.
  unfold _audio_callback. rewrite Hdrain. unfold bind at 1.
  destruct (render_channels_spec (channels eng1) (repeat 0.0 frames))
    as [mix [chs' [Hr [Hl Hn]]]]; [apply repeat_length |].
  rewrite Hr. unfold bind at 1. cbn [fst snd].
  set (out := map tanh (map (fun x => x * _master_volume eng1) mix)).
  assert (Hlen : length out = frames)
    by (unfold out; rewrite !length_map; exact Hl).
  assert (Hclip : Forall (fun y => Rabs y <= 1) out).
  { unfold out. apply Forall_map, Forall_forall. intros y _.
    apply Rabs_tanh_le_1. }
  destruct (np_max (map Rabs out)) as [peak |] eqn:Epeak.
  2:{ destruct out as [| y out']; [cbn in Hlen; lia | discriminate]. }
  destruct (np_max_spec _ _ Epeak) as [Hin Hall].
  unfold bind.
  eexists. exists out. split; [reflexivity |].
  cbn [_peak_level].
  split; [exact Hlen |]. split; [| split; [exact Hclip |]].
  - intros i Hi. unfold out.
    rewrite (nth_indep _ 0 (tanh 0)) by (rewrite !length_map; lia).
    rewrite (map_nth tanh).
    rewrite (nth_indep _ 0 (0 * _master_volume eng1)) by (rewrite length_map; lia).
    rewrite (map_nth (fun x => x * _master_volume eng1)).
    rewrite (Hn i Hi), Hvol.
    rewrite (nth_indep (repeat 0.0 frames) 0 0.0) by (rewrite repeat_length; lia).
    rewrite nth_repeat. reflexivity.
  - split; [exact Hin |]. split.
    + apply Forall_map in Hall. exact Hall.
    + apply in_map_iff in Hin. destruct Hin as [y [Hy Hyin]].
      rewrite Forall_forall in Hclip. rewrite <- Hy. apply Hclip, Hyin.
Qed.

End Callback.


Lemma audio_callback_soft_clip_witness :
  let eng := @init TraceChannel trace_api 4 in
  exists eng2 out,
    _audio_callback 4 eng 2 = Ok (eng2, out)
    /\ length out = 2%nat
    /\ (forall i, (i < 2)%nat ->
          nth i out 0
          = tanh (mixed_sample (channels eng) 2 i * _master_volume eng))
    /\ Forall (fun y => Rabs y <= 1) out
    /\ In (_peak_level eng2) (map Rabs out)
    /\ Forall (fun y => Rabs y <= _peak_level eng2) out
    /\ _peak_level eng2 <= 1.
Proof.
  intros eng.
  apply (@audio_callback_soft_clip TraceChannel trace_api 4 2
           (fun ch => repeat_length 0.0 2) eng eng).
  - lia.
  - reflexivity.
Defined.

(** ** Routing of MIDI messages *)

Section Routing.

Context {Channel : Type} `{API : ChannelAPI Channel}.
Variable NUM_CHANNELS : nat.

Lemma nth_error_set_nth_other {A : Type} (l : list A) (k j : nat) (a : A) :
  j <> k -> nth_error (set_nth k a l) j = nth_error l j.
Proof.
  revert k j. induction l as [| x l IH]; intros k j Hjk.
  - destruct k; reflexivity.
  - destruct k as [| k]; destruct j as [| j]; cbn; try reflexivity;
      [contradiction | apply IH; lia].
Qed.

(** Only the routed channel can change. *)
Lemma process_midi_frame (eng eng' : AudioEngine) (msg : message) (k j : nat) :
  route NUM_CHANNELS eng msg = Ok k ->
  _process_midi NUM_CHANNELS eng msg = Ok eng' ->
  j <> k ->
  nth_error (channels eng') j = nth_error (channels eng) j.
Proof.
  unfold _process_midi, bind. intros Hk H Hj. rewrite Hk in H.
  destruct (item (nth_error (channels eng) k)) as [ch |]; [| discriminate].
  match type of H with
  | match ?m with Ok _ => _ | Raise _ => _ end = _ =>
      destruct m as [ch' |]; [| discriminate]
  end.
  injection H as <-. cbn [with_channels channels].
  apply nth_error_set_nth_other, Hj.
Qed.

(** The guard of the source: a channel number at or above
    [NUM_CHANNELS] is routed to channel 0. *)
Lemma route_high (eng : @AudioEngine Channel) (msg : message) (c : Z) :
  length (channels eng) = NUM_CHANNELS ->
  (0 < NUM_CHANNELS)%nat ->
  m_channel msg = Some c ->
  (Z.of_nat NUM_CHANNELS <= c)%Z ->
  route NUM_CHANNELS eng msg = Ok 0%nat.
Proof.
  intros Hlen Hpos Hc Hge. unfold route. rewrite Hc.
  destruct (Z.geb_spec c (Z.of_nat NUM_CHANNELS)) as [_ | Hlt]; [| lia].
  unfold py_index. rewrite Hlen.
  destruct (Z.ltb_spec 0 (Z.of_nat NUM_CHANNELS)) as [_ | Hn]; [| lia].
  reflexivity.
Qed.

(** A negative channel number passes the guard: Python's indexing
    counts it from the end of the channel list, and below
    [-NUM_CHANNELS] it raises. *)
Lemma route_negative (eng : @AudioEngine Channel) (msg : message) (c : Z) :
  length (channels eng) = NUM_CHANNELS ->
  m_channel msg = Some c ->
  (- Z.of_nat NUM_CHANNELS <= c < 0)%Z ->
  route NUM_CHANNELS eng msg = Ok (Z.to_nat (Z.of_nat NUM_CHANNELS + c)).
Proof.
  intros Hlen Hc Hneg. unfold route. rewrite Hc.
  destruct (Z.geb_spec c (Z.of_nat NUM_CHANNELS)) as [Hge | _]; [lia |].
  unfold py_index. rewrite Hlen.
  destruct (Z.leb_spec 0 c) as [H0 | _]; [lia |]. cbn [andb].
  destruct (Z.leb_spec (- Z.of_nat NUM_CHANNELS) c) as [_ | Hl]; [| lia].
  destruct (Z.ltb_spec c 0) as [_ | Hl]; [| lia].
  reflexivity.
Qed.

Lemma route_far_negative (eng : @AudioEngine Channel) (msg : message) (c : Z) :
  length (channels eng) = NUM_CHANNELS ->
  m_channel msg = Some c ->
  (c < - Z.of_nat NUM_CHANNELS)%Z ->
  _process_midi NUM_CHANNELS eng msg = Raise IndexError.
Proof.
  intros Hlen Hc Hneg. unfold _process_midi. unfold route. rewrite Hc.
  destruct (Z.geb_spec c (Z.of_nat NUM_CHANNELS)) as [Hge | _]; [lia |].
  unfold py_index. rewrite Hlen.
  destruct (Z.leb_spec 0 c) as [H0 | _]; [lia |]. cbn [andb].
  destruct (Z.leb_spec (- Z.of_nat NUM_CHANNELS) c) as [Hl | _]; [lia |].
  reflexivity.
Qed.

End Routing.

(** C5.  A note_on whose channel field is -1 is neither dropped nor
    sent to channel 0: with four channels it is forwarded to channel 3,
    whose state changes, while channel 0 is untouched. *)
Theorem negative_channel_reaches_last_channel :
  let eng := @init TraceChannel trace_api 4 in
  let msg := mkMessage (Some "note_on"%string) (Some (-1)%Z) (Some 60%Z)
               (Some 100%Z) None None in
  exists eng',
    _process_midi 4 eng msg = Ok eng'
    /\ nth_error (channels eng) 3 = Some (mkTraceChannel 3 [])
    /\ nth_error (channels eng') 3 = Some (mkTraceChannel 3 [NoteOn 60 100])
    /\ nth_error (channels eng') 0 = nth_error (channels eng) 0.
Proof.
  cbv zeta. eexists. split; [reflexivity |].
  repeat split; reflexivity.
Qed.

End EngineSpec.

(* ================================================================== *)
(** * Further properties of the ladder filter *)

Module FilterExtra.
Import Filter.





Lemma ladder_loop_app (b : backend) (xs ys cx cy : list R)
    (res : R) (st : taps) (sr : R) :
  length cx = length xs ->
  ladder_loop b (xs ++ ys) (cx ++ cy) res st sr
  = match ladder_loop b xs cx res st sr with
    | Some (o1, st1) =>
        match ladder_loop b ys cy res st1 sr with
        | Some (o2, st2) => Some (o1 ++ o2, st2)
        | None => None
        end
    | None => None
    end.
Proof.
  revert cx st. induction xs as [| x xs IH]; intros cx st Hlen.
  - destruct cx; [| discriminate]. cbn [app ladder_loop].
    destruct (ladder_loop b ys cy res st sr) as [[o2 st2] |]; reflexivity.
  - destruct cx as [| fc cx]; [discriminate |].
    cbn [app ladder_loop]. destruct (step b x fc res st sr) as [lp st1].
    rewrite IH by (cbn in Hlen; lia).
    destruct (ladder_loop b xs cx res st1 sr) as [[o1 s1] |]; [| reflexivity].
    destruct (ladder_loop b ys cy res s1 sr) as [[o2 s2] |]; reflexivity.
Qed.

(** X2.  Block-size independence: filtering a buffer in one call gives
    the same samples and the same final filter as filtering its first
    part and then, with the taps left by that call, the rest; without
    modulation, and with a modulation buffer split at the same place. *)
Theorem render_split (SAMPLE_RATE : R) (b : backend) (flt : MoogFilter)
    (xs ys mx my : list R) :
  length mx = length xs ->
  (forall out1 flt1 out2 flt2,
      render SAMPLE_RATE b flt xs None = Some (out1, flt1) ->
      render SAMPLE_RATE b flt1 ys None = Some (out2, flt2) ->
      render SAMPLE_RATE b flt (xs ++ ys) None = Some (out1 ++ out2, flt2))
  /\ (forall out1 flt1 out2 flt2,
      render SAMPLE_RATE b flt xs (Some mx) = Some (out1, flt1) ->
      render SAMPLE_RATE b flt1 ys (Some my) = Some (out2, flt2) ->
      render SAMPLE_RATE b flt (xs ++ ys) (Some (mx ++ my))
      = Some (out1 ++ out2, flt2)).
Proof.
  intros Hm. split; intros out1 flt1 out2 flt2 H1 H2;
    unfold render, _moog_ladder_process in *;
    unfold render_cutoff_buf in *.
  - rewrite length_app, repeat_app.
    rewrite ladder_loop_app by apply repeat_length.
    destruct (ladder_loop b xs _ (resonance flt) (_state flt) SAMPLE_RATE)
      as [[o1 s1] |]; [| discriminate].
    injection H1 as <- <-. cbn [cutoff resonance _state env_amount key_tracking] in H2.
    destruct (ladder_loop b ys _ (resonance flt) s1 SAMPLE_RATE)
      as [[o2 s2] |]; [| discriminate].
    injection H2 as <- <-. reflexivity.
  - rewrite map_app.
    rewrite ladder_loop_app by (rewrite length_map; exact Hm).
    destruct (ladder_loop b xs _ (resonance flt) (_state flt) SAMPLE_RATE)
      as [[o1 s1] |]; [| discriminate].
    injection H1 as <- <-. cbn [cutoff resonance _state env_amount key_tracking] in H2.
    destruct (ladder_loop b ys _ (resonance flt) s1 SAMPLE_RATE)
      as [[o2 s2] |]; [| discriminate].
    injection H2 as <- <-. reflexivity.
Qed.

Lemma render_split_witness :
  (forall out1 flt1 out2 flt2,
      render 44100 Python init [1] None = Some (out1, flt1) ->
      render 44100 Python flt1 [0; 0] None = Some (out2, flt2) ->
      render 44100 Python init ([1] ++ [0; 0]) None = Some (out1 ++ out2, flt2))
  /\ (forall out1 flt1 out2 flt2,
      render 44100 Python init [1] (Some [100]) = Some (out1, flt1) ->
      render 44100 Python flt1 [0; 0] (Some [0; 50]) = Some (out2, flt2) ->
      render 44100 Python init ([1] ++ [0; 0]) (Some ([100] ++ [0; 50]))
      = Some (out1 ++ out2, flt2)).
Proof. apply render_split. reflexivity. Defined.




(** X4.  With a modulation buffer, [MoogFilter.render] hands the ladder
    one cutoff per modulation value, each clamped to
    [[20, SAMPLE_RATE * 0.49]] (a sample rate of at least 20/0.49 Hz
    makes the interval non-empty). *)
Theorem modulated_cutoffs_in_range (SAMPLE_RATE : R) (flt : MoogFilter)
    (samples cm : list R) :
  20 <= SAMPLE_RATE * 0.49 ->
  length (render_cutoff_buf SAMPLE_RATE flt samples (Some cm)) = length cm
  /\ Forall (fun fc => 20 <= fc <= SAMPLE_RATE * 0.49)
       (render_cutoff_buf SAMPLE_RATE flt samples (Some cm)).
Proof.
  intros Hsr. unfold render_cutoff_buf. split; [apply length_map |].
  apply Forall_map, Forall_forall. intros m _. unfold clip. split.
  - apply Rmin_glb; [lra |]. apply Rle_trans with 20.0; [lra | apply Rmax_r].
  - apply Rmin_l.
Qed.

Lemma modulated_cutoffs_in_range_witness :
  length (render_cutoff_buf 44100 init [0; 0] (Some [-9000; 90000])) = 2%nat
  /\ Forall (fun fc => 20 <= fc <= 44100 * 0.49)
       (render_cutoff_buf 44100 init [0; 0] (Some [-9000; 90000])).
Proof. apply modulated_cutoffs_in_range. lra. Defined.


Lemma step_dc (b : backend) (x fc sr : R) :
  step b x fc 0 (mkTaps x x x x) sr = (x, mkTaps x x x x).
Proof.
  destruct b; unfold step, numba_step, python_step;
    cbv zeta; cbn [s0 s1 s2 s3];
    [destruct (Rlt_dec fc (sr * 0.49)) |];
    match goal with
    | |- context [?g / (1.0 + ?g)] => generalize (g / (1.0 + g))
    end; intros G;
    (f_equal; [| f_equal]); unlit; field; lra.
Qed.

Lemma ladder_loop_dc (b : backend) (x : R) (n : nat) (cutoff_buf : list R) (sr : R) :
  (n <= length cutoff_buf)%nat ->
  ladder_loop b (repeat x n) cutoff_buf 0 (mkTaps x x x x) sr
  = Some (repeat x n, mkTaps x x x x).
Proof.
  revert cutoff_buf.
  induction n as [| n IH]; intros cutoff_buf Hlen; [reflexivity |].
  destruct cutoff_buf as [| fc cutoff_buf]; [cbn in Hlen; lia |].
  cbn [repeat ladder_loop]. rewrite step_dc.
  rewrite IH by (cbn in Hlen; lia). reflexivity.
Qed.

(** X5.  The low-pass passes DC: with zero resonance, a filter whose
    four taps all hold the value [x] answers a constant input [x] with
    the constant output [x] and keeps its taps, at every cutoff and
    for both backends. *)
Theorem dc_steady_state (SAMPLE_RATE : R) (b : backend) (flt : MoogFilter)
    (x : R) (n : nat) :
  resonance flt = 0 ->
  _state flt = mkTaps x x x x ->
  render SAMPLE_RATE b flt (repeat x n) None = Some (repeat x n, flt).
Proof.
  intros Hres Hst. unfold render, _moog_ladder_process.
  rewrite Hres, Hst, ladder_loop_dc.
  - destruct flt as [c r ea kt st]. cbn in Hres, Hst |- *. subst. reflexivity.
  - unfold render_cutoff_buf. rewrite !repeat_length. lia.
Qed.

Lemma dc_steady_state_witness :
  render 44100 Numba (mkMoogFilter 8000 0 0 0 (mkTaps 0.5 0.5 0.5 0.5))
    (repeat 0.5 3) None
  = Some (repeat 0.5 3, mkMoogFilter 8000 0 0 0 (mkTaps 0.5 0.5 0.5 0.5)).
Proof. apply dc_steady_state; reflexivity. Defined.

End FilterExtra.

(* ================================================================== *)
(** * Further properties of the oscillator *)

Module OscillatorExtra.
Import Oscillator.



Lemma mod1_zero : mod1 0 = 0.
Proof. unfold mod1. apply fp_R0. Qed.


Lemma cumsum_from_app (l1 l2 : list R) (acc : R) :
  cumsum_from acc (l1 ++ l2)
  = cumsum_from acc l1 ++ cumsum_from (acc + fold_right Rplus 0 l1) l2.
Proof.
  revert acc. induction l1 as [| x l1 IH]; intros acc; cbn [app cumsum_from fold_right].
  - rewrite Rplus_0_r. reflexivity.
  - rewrite IH. do 3 f_equal. ring.
Qed.


Lemma last_cumsum (l : list R) (x : R) :
  last_opt (cumsum (l ++ [x])) = Some (fold_right Rplus 0 (l ++ [x])).
Proof.
  unfold cumsum. rewrite cumsum_from_app. cbn [cumsum_from].
  unfold last_opt.
  destruct (cumsum_from 0 l ++ [0 + fold_right Rplus 0 l + x]) eqn:E.
  - destruct (cumsum_from 0 l); discriminate.
  - rewrite <- E, last_last. f_equal.
    clear E. induction l as [| y l IH]; cbn [app fold_right]; [ring |].
    rewrite <- IH. ring.
Qed.

Lemma last_opt_cumsum_nonempty (l : list R) :
  l <> [] -> last_opt (cumsum l) = Some (fold_right Rplus 0 l).
Proof.
  intros Hl. destruct (exists_last Hl) as [l' [x ->]]. apply last_cumsum.
Qed.

Section Calls.

Variable WAVETABLE_SIZE : nat.
Variable SAMPLE_RATE : R.

(** The part of [render] after the level test, as a function of the
    increments. *)
Lemma render_active (osc : Oscillator) (freq : R) (n : nat) (pm : option (list R)) :
  0 < level osc ->
  render_increments SAMPLE_RATE osc freq n pm <> [] ->
  let incs := render_increments SAMPLE_RATE osc freq n pm in
  render WAVETABLE_SIZE SAMPLE_RATE osc freq n pm
  = (Some (map (fun ph => lookup WAVETABLE_SIZE
                            (_TABLES_get WAVETABLE_SIZE (waveform osc)) ph
                          * level osc)
             (render_phases osc incs)),
     set_phase osc (mod1 (phase osc + fold_right Rplus 0 incs))).
Proof.
  intros Hl Hne incs. unfold render.
  destruct (Rle_dec (level osc) 0.0) as [Hz | _]; [lra |].
  cbv zeta. fold incs. rewrite (last_opt_cumsum_nonempty incs Hne). reflexivity.
Qed.

(** X6.  An oscillator with a positive level asked for zero samples,
    or given an empty [pitch_mod] buffer, raises (the [IndexError] of
    [cumulative[-1]]) and is left unchanged. *)
Theorem render_nothing_raises (osc : Oscillator) (freq : R) (n : nat) :
  0 < level osc ->
  render WAVETABLE_SIZE SAMPLE_RATE osc freq 0 None = (None, osc)
  /\ render WAVETABLE_SIZE SAMPLE_RATE osc freq n (Some []) = (None, osc).
Proof.
  intros Hl. unfold render.
  destruct (Rle_dec (level osc) 0.0) as [Hz | _]; [lra |].
  split; reflexivity.
Qed.

(** X7.  When a [pitch_mod] buffer is given, the number of samples
    returned is the length of that buffer, whatever [n_samples] is. *)
Theorem render_length_follows_pitch_mod (osc : Oscillator) (freq : R)
    (n : nat) (pm : list R) :
  0 < level osc ->
  pm <> [] ->
  exists out,
    fst (render WAVETABLE_SIZE SAMPLE_RATE osc freq n (Some pm)) = Some out
    /\ length out = length pm.
Proof.
  intros Hl Hpm.
  rewrite render_active; [| exact Hl |].
  - cbn [fst]. eexists. split; [reflexivity |].
    rewrite length_map, OscillatorSpec.render_phases_length.
    unfold render_increments. apply length_map.
  - unfold render_increments. destruct pm; [contradiction | discriminate].
Qed.


Lemma sum_repeat (q : R) (n : nat) : fold_right Rplus 0 (repeat q n) = INR n * q.
Proof.
  induction n as [| n IH]; [cbn; ring |].
  cbn [repeat fold_right]. rewrite IH, S_INR. ring.
Qed.



End Calls.




Lemma init_level_pos : 0 < level init.
Proof. unfold init. cbn [level]. lra. Qed.

Lemma render_nothing_raises_witness :
  render 2048 44100 init 440 0 None = (None, init)
  /\ render 2048 44100 init 440 8 (Some []) = (None, init).
Proof. apply render_nothing_raises. exact init_level_pos. Defined.

Lemma render_length_follows_pitch_mod_witness :
  exists out,
    fst (render 2048 44100 init 440 8 (Some [0; 1; 2])) = Some out
    /\ length out = length [0; 1; 2].
Proof.
  apply render_length_follows_pitch_mod; [exact init_level_pos | discriminate].
Defined.

(** Every table starts at zero: all harmonics vanish at phase 0. *)
Lemma accumulate_zero (ks : list nat) (term : nat -> R) :
  (forall k, term k = 0) -> accumulate ks term = 0.
Proof.
  intros H. rewrite OscillatorSpec.accumulate_sum.
  induction ks as [| k ks IH]; cbn [map fold_right]; [reflexivity |].
  rewrite H, IH. ring.
Qed.

Lemma sin_at_phase_zero (ts : nat) (c : R) :
  sin (c * linspace_phase ts 0) = 0.
Proof.
  unfold linspace_phase. cbn [INR].
  replace (c * (0 * ((1.0 - 0.0) / INR ts) + 0.0)) with 0 by (unfold Rdiv; lra).
  apply sin_0.
Qed.

Lemma tables_start_at_zero (ts : nat) (w : string) :
  nth 0 (_TABLES_get ts w) 0 = 0.
Proof.
  assert (Hb : forall entry, entry 0%nat = 0 -> nth 0 (build ts entry) 0 = 0).
  { intros entry He. unfold build. destruct ts as [| ts]; [reflexivity |].
    cbn [seq map nth]. exact He. }
  assert (Hsaw : saw_at ts 0 = 0).
  { unfold saw_at. rewrite accumulate_zero; [ring |].
    intros k. rewrite sin_at_phase_zero. unfold Rdiv. ring. }
  unfold _TABLES_get.
  repeat match goal with |- context [if ?c then _ else _] => destruct c end;
    apply Hb; try exact Hsaw.
  - unfold sine_at. apply sin_at_phase_zero.
  - unfold square_at. rewrite accumulate_zero; [ring |].
    intros k. rewrite sin_at_phase_zero. unfold Rdiv. ring.
  - unfold triangle_at. rewrite accumulate_zero; [ring |].
    intros k. cbv zeta. rewrite sin_at_phase_zero. unfold Rdiv. ring.
Qed.

Lemma lookup_at_zero (ts : nat) (table : list R) :
  lookup ts table 0 = nth 0 table 0.
Proof.
  unfold lookup. cbv zeta. rewrite Rmult_0_l.
  unfold astype_int32. destruct (Rle_dec 0 0) as [_ | Hn]; [| lra].
  replace (Int_part 0) with 0%Z by (apply Int_part_spec; cbn; lra).
  rewrite Zmod_0_l. cbn [Z.to_nat IZR]. lra.
Qed.

Section FirstSample.

Variable WAVETABLE_SIZE : nat.
Variable SAMPLE_RATE : R.

(** X9.  Every wavetable starts at zero, so an oscillator whose phase
    is 0 (a new one, or one after reset_phase) renders an exact 0 as
    its first sample, for every waveform name, frequency and
    modulation. *)
Theorem first_sample_at_phase_zero (osc : Oscillator) (freq : R) (n : nat)
    (pm : option (list R)) (out : list R) :
  phase osc = 0 ->
  fst (render WAVETABLE_SIZE SAMPLE_RATE osc freq n pm) = Some out ->
  nth 0 out 0 = 0.
Proof.
  intros Hph. unfold render.
  destruct (Rle_dec (level osc) 0.0) as [Hz | Hpos].
  - cbn [fst]. intros H. injection H as <-.
    destruct n; cbn; lra.
  - cbv zeta. destruct (last_opt _); cbn [fst]; [| discriminate].
    intros H. injection H as <-.
    set (incs := render_increments SAMPLE_RATE osc freq n pm).
    destruct incs as [| x incs'] eqn:E; [reflexivity |].
    unfold render_phases, cumsum. cbn [cumsum_from combine map nth fst snd].
    rewrite Hph.
    replace (0 + (0 + x) - x) with 0 by ring.
    rewrite mod1_zero, lookup_at_zero, tables_start_at_zero. ring.
Qed.

(** X10.  An unknown waveform name falls back to the saw table: the
    samples and the phase are those of the same oscillator with
    waveform ["saw"]. *)
Theorem unknown_waveform_renders_saw (osc : Oscillator) (freq : R) (n : nat)
    (pm : option (list R)) :
  waveform osc <> "sine"%string -> waveform osc <> "saw"%string ->
  waveform osc <> "square"%string -> waveform osc <> "triangle"%string ->
  fst (render WAVETABLE_SIZE SAMPLE_RATE osc freq n pm)
  = fst (render WAVETABLE_SIZE SAMPLE_RATE (set_waveform osc "saw") freq n pm)
  /\ phase (snd (render WAVETABLE_SIZE SAMPLE_RATE osc freq n pm))
     = phase (snd (render WAVETABLE_SIZE SAMPLE_RATE (set_waveform osc "saw")
                     freq n pm)).
Proof.
  intros H1 H2 H3 H4.
  assert (Ht : _TABLES_get WAVETABLE_SIZE (waveform osc)
               = _TABLES_get WAVETABLE_SIZE "saw").
  { unfold _TABLES_get.
    destruct (String.eqb_spec (waveform osc) "sine"); [contradiction |].
    destruct (String.eqb_spec (waveform osc) "saw"); [contradiction |].
    destruct (String.eqb_spec (waveform osc) "square"); [contradiction |].
    destruct (String.eqb_spec (waveform osc) "triangle"); [contradiction |].
    reflexivity. }
  unfold render. cbn [level set_waveform].
  destruct (Rle_dec (level osc) 0.0); [split; reflexivity |].
  cbv zeta.
  change (render_increments SAMPLE_RATE (set_waveform osc "saw") freq n pm)
    with (render_increments SAMPLE_RATE osc freq n pm).
  change (render_phases (set_waveform osc "saw"))
    with (render_phases osc).
  destruct (last_opt _); cbn [fst snd]; [| split; reflexivity].
  cbn [waveform set_waveform phase set_phase]. rewrite Ht. split; reflexivity.
Qed.

(** X11.  A pitch modulation of zero semitones on every sample is no
    modulation. *)
Theorem zero_pitch_mod_is_neutral (osc : Oscillator) (freq : R) (n : nat) :
  render WAVETABLE_SIZE SAMPLE_RATE osc freq n (Some (repeat 0 n))
  = render WAVETABLE_SIZE SAMPLE_RATE osc freq n None.
Proof.
  unfold render.
  assert (Hinc : render_increments SAMPLE_RATE osc freq n (Some (repeat 0 n))
                 = render_increments SAMPLE_RATE osc freq n None).
  { unfold render_increments. cbv zeta.
    induction n as [| n IH]; [reflexivity |].
    cbn [repeat map]. rewrite IH. f_equal.
    replace (0 / 12.0) with 0 by lra. rewrite Rpower_O by lra.
    unfold Rdiv. ring. }
  rewrite Hinc. reflexivity.
Qed.

End FirstSample.



Lemma first_sample_at_phase_zero_witness :
  exists out,
    fst (render 2048 44100 init 440 4 None) = Some out /\ nth 0 out 0 = 0.
Proof.
  assert (Hne : render_increments 44100 init 440 4 None <> []) by discriminate.
  pose proof (render_active 2048 44100 init 440 4 None init_level_pos Hne) as H.
  cbv zeta in H.
  eexists. split; [rewrite H; reflexivity |].
  apply (first_sample_at_phase_zero 2048 44100 init 440 4 None).
  - unfold init. cbn [phase]. lra.
  - rewrite H. reflexivity.
Defined.

Lemma unknown_waveform_renders_saw_witness :
  let osc := mkOscillator "noise" 0 0 0 1 0.5 0 in
  fst (render 2048 44100 osc 440 4 None)
  = fst (render 2048 44100 (set_waveform osc "saw") 440 4 None)
  /\ phase (snd (render 2048 44100 osc 440 4 None))
     = phase (snd (render 2048 44100 (set_waveform osc "saw") 440 4 None)).
Proof.
  intros osc. apply unknown_waveform_renders_saw; discriminate.
Defined.

End OscillatorExtra.

(* ================================================================== *)
(** * Further properties of the envelope *)

Module EnvelopeExtra.
Import Envelope.

Lemma control_loop_length (sr : R) (sizes : list nat) (e : ADSR) :
  length (snd (control_loop sr e sizes)) = length sizes.
Proof.
  revert e. induction sizes as [| b sizes IH]; intros e; [reflexivity |].
  cbn [control_loop]. specialize (IH (_advance sr e b)).
  destruct (control_loop sr (_advance sr e b) sizes) as [e2 cv].
  cbn [snd length] in *. rewrite IH. reflexivity.
Qed.

Lemma map_const (f : nat -> R) (c : R) (l : list nat) :
  (forall j, f j = c) -> map f l = repeat c (length l).
Proof.
  intros Hf. induction l as [| j l IH]; [reflexivity |].
  cbn [map length repeat]. rewrite Hf, IH. reflexivity.
Qed.

Section Shape.

Variable SAMPLE_RATE : R.
Variable CONTROL_RATE_DIVIDER : nat.
Hypothesis divider_pos : (0 < CONTROL_RATE_DIVIDER)%nat.

Lemma ramp_block_length (cv : list R) (n i : nat) :
  length (ramp_block CONTROL_RATE_DIVIDER cv n i)
  = block_size CONTROL_RATE_DIVIDER n i.
Proof.
  unfold ramp_block.
  destruct (Nat.eqb_spec (block_size CONTROL_RATE_DIVIDER n i) 0) as [Hz | Hnz].
  - rewrite Hz. reflexivity.
  - destruct (i =? 0)%nat.
    + apply repeat_length.
    + rewrite length_map. apply length_seq.
Qed.

(** X13.  [ADSR.render(n)] returns exactly [n] samples. *)
Theorem envelope_render_length (e : ADSR) (n : nat) :
  length (fst (render SAMPLE_RATE CONTROL_RATE_DIVIDER e n)) = n.
Proof.
  unfold render. cbv zeta.
  destruct (control_loop SAMPLE_RATE e _) as [e' cv].
  destruct (total_blocks CONTROL_RATE_DIVIDER n <=? 1)%nat; cbn [fst].
  - apply repeat_length.
  - rewrite length_concat, map_map.
    rewrite (map_ext _ (block_size CONTROL_RATE_DIVIDER n))
      by (intros i; apply ramp_block_length).
    apply EnvelopeSpec.block_sizes_sum, divider_pos.
Qed.

Lemma advance_sustain_state (e : ADSR) (b : nat) :
  _state e = Sustain ->
  _advance SAMPLE_RATE e b = update e Sustain (sustain e) (_samples_in_state e + b).
Proof. intros Hst. unfold _advance. rewrite Hst. reflexivity. Qed.

Lemma control_loop_sustained (sizes : list nat) (e : ADSR) :
  _state e = Sustain -> _level e = sustain e ->
  snd (control_loop SAMPLE_RATE e sizes) = repeat (sustain e) (length sizes)
  /\ _state (fst (control_loop SAMPLE_RATE e sizes)) = Sustain
  /\ _level (fst (control_loop SAMPLE_RATE e sizes)) = sustain e.
Proof.
  revert e. induction sizes as [| b sizes IH]; intros e Hst Hl.
  - cbn. auto.
  - cbn [control_loop]. rewrite (advance_sustain_state e b Hst).
    set (e1 := update e Sustain (sustain e) (_samples_in_state e + b)).
    destruct (IH e1 eq_refl eq_refl) as [H1 [H2 H3]].
    destruct (control_loop SAMPLE_RATE e1 sizes) as [e2 cv].
    cbn [fst snd length repeat] in *.
    split; [rewrite H1; reflexivity |]. split; assumption.
Qed.

(** X16.  While the envelope is in its sustain stage, [render(n)]
    returns [n] copies of the sustain level, whatever the level was
    before, and the envelope stays sustained at that level. *)
Theorem sustain_renders_constant (e : ADSR) (n : nat) :
  _state e = Sustain ->
  (1 <= n)%nat ->
  fst (render SAMPLE_RATE CONTROL_RATE_DIVIDER e n) = repeat (sustain e) n
  /\ _state (snd (render SAMPLE_RATE CONTROL_RATE_DIVIDER e n)) = Sustain
  /\ _level (snd (render SAMPLE_RATE CONTROL_RATE_DIVIDER e n)) = sustain e.
Proof.
  intros Hst Hn.
  pose proof (EnvelopeSpec.block_sizes_sum CONTROL_RATE_DIVIDER divider_pos n) as Hsum.
  unfold render. cbv zeta.
  set (tb := total_blocks CONTROL_RATE_DIVIDER n) in *.
  set (sizes := map (block_size CONTROL_RATE_DIVIDER n) (seq 0 tb)) in *.
  assert (Hlen : length sizes = tb)
    by (unfold sizes; rewrite length_map; apply length_seq).
  destruct sizes as [| b sizes'] eqn:Es; [cbn in Hsum; lia |].
  cbn [control_loop]. rewrite (advance_sustain_state e b Hst).
  set (e1 := update e Sustain (sustain e) (_samples_in_state e + b)).
  destruct (control_loop_sustained sizes' e1 eq_refl eq_refl) as [H1 [H2 H3]].
  destruct (control_loop SAMPLE_RATE e1 sizes') as [e2 cv].
  cbn [fst snd sustain update _level e1] in *.
  assert (Hcv : sustain e :: cv = repeat (sustain e) tb).
  { rewrite H1, <- Hlen. reflexivity. }
  rewrite Hcv.
  destruct (tb <=? 1)%nat; cbn [fst snd].
  - rewrite H3. auto.
  - split; [| auto].
    rewrite (map_ext_in _ (fun i => repeat (sustain e)
                                      (block_size CONTROL_RATE_DIVIDER n i))).
    + rewrite EnvelopeSpec.concat_repeat. unfold tb.
      rewrite (EnvelopeSpec.block_sizes_sum CONTROL_RATE_DIVIDER divider_pos n).
      reflexivity.
    + intros i Hi. apply in_seq in Hi. unfold ramp_block.
      destruct (block_size CONTROL_RATE_DIVIDER n i =? 0)%nat eqn:Eb.
      * apply Nat.eqb_eq in Eb. rewrite Eb. reflexivity.
      * assert (Hnth : forall j, (j < tb)%nat ->
                         nth j (repeat (sustain e) tb) 0 = sustain e).
        { intros j Hj.
          rewrite (nth_indep _ 0 (sustain e)) by (rewrite repeat_length; exact Hj).
          apply nth_repeat. }
        destruct (i =? 0)%nat eqn:Ei.
        -- rewrite Hnth by lia. reflexivity.
        -- apply Nat.eqb_neq in Ei. rewrite !Hnth by lia.
           transitivity (repeat (sustain e)
                           (length (seq 0 (block_size CONTROL_RATE_DIVIDER n i)))).
           ++ apply map_const. intros j. ring.
           ++ rewrite length_seq. reflexivity.
Qed.

End Shape.


Lemma envelope_render_length_witness :
  length (fst (render 44100 16 default 100)) = 100%nat.
Proof. apply envelope_render_length. lia. Defined.

Lemma sustain_renders_constant_witness :
  let e := mkADSR 0.01 0.1 0.7 0.3 Sustain 0.9 0 in
  fst (render 44100 16 e 40) = repeat (sustain e) 40
  /\ _state (snd (render 44100 16 e 40)) = Sustain
  /\ _level (snd (render 44100 16 e 40)) = sustain e.
Proof.
  intros e. apply sustain_renders_constant; [lia | reflexivity | lia].
Defined.

Section Stages.

Variable SAMPLE_RATE : R.
Variable CONTROL_RATE_DIVIDER : nat.
Hypothesis sample_rate_positive : 0 < SAMPLE_RATE.
Hypothesis divider_pos : (0 < CONTROL_RATE_DIVIDER)%nat.










End Stages.





(** [_advance] reads the three times only through [max(., _MIN_TIME)]. *)
Lemma Rmax_floor_idem (x : R) : Rmax (Rmax x _MIN_TIME) _MIN_TIME = Rmax x _MIN_TIME.
Proof. apply Rmax_left, Rmax_r. Qed.

Lemma advance_clamp_times (sr : R) (e : ADSR) (n : nat) :
  _advance sr (clamp_times e) n = clamp_times (_advance sr e n).
Proof.
  unfold _advance, clamp_times.
  cbn [_state _level _samples_in_state attack decay sustain release].
  rewrite !Rmax_floor_idem.
  destruct (_state e); cbv zeta;
    repeat match goal with |- context [if ?c then _ else _] => destruct c end;
    reflexivity.
Qed.

Lemma control_loop_clamp_times (sr : R) (sizes : list nat) (e : ADSR) :
  control_loop sr (clamp_times e) sizes
  = (clamp_times (fst (control_loop sr e sizes)), snd (control_loop sr e sizes)).
Proof.
  revert e. induction sizes as [| b sizes IH]; intros e; [reflexivity |].
  cbn [control_loop]. rewrite advance_clamp_times, IH.
  destruct (control_loop sr (_advance sr e b) sizes) as [e2 cv]. reflexivity.
Qed.

Lemma render_clamp_times (sr : R) (crd : nat) (e : ADSR) (n : nat) :
  render sr crd (clamp_times e) n
  = (fst (render sr crd e n), clamp_times (snd (render sr crd e n))).
Proof.
  unfold render. cbv zeta. rewrite control_loop_clamp_times.
  destruct (control_loop sr e _) as [e' cv]. cbn [fst snd].
  destruct (total_blocks crd n <=? 1)%nat; reflexivity.
Qed.

(** X17.  [_MIN_TIME] is enforced: an envelope renders, under every
    sequence of gate_on, gate_off and render calls, the same buffers
    as the envelope whose attack, decay and release are raised to
    [_MIN_TIME]; in particular a time of 0 behaves like 0.001 s. *)
Theorem min_time_is_enforced (sr : R) (crd : nat) (e : ADSR) (cs : list call) :
  rendered sr crd (clamp_times e) cs = rendered sr crd e cs.
Proof.
  revert e. induction cs as [| c cs IH]; intros e; [reflexivity |].
  destruct c; cbn [rendered run_call].
  - change (gate_on (clamp_times e)) with (clamp_times (gate_on e)). apply IH.
  - replace (gate_off (clamp_times e)) with (clamp_times (gate_off e))
      by (destruct e as [a d s r st l k]; destruct st; reflexivity).
    apply IH.
  - rewrite render_clamp_times. cbn [fst snd]. f_equal. apply IH.
Qed.

End EnvelopeExtra.

(* ================================================================== *)
(** * Further properties of the audio engine *)

Module EngineExtra.
Import Engine.

Lemma set_nth_same {A : Type} (l : list A) (k : nat) (a : A) :
  nth_error l k = Some a -> set_nth k a l = l.
Proof.
  revert k. induction l as [| x l IH]; intros k H.
  - destruct k; discriminate.
  - destruct k as [| k]; cbn in *.
    + injection H as ->. reflexivity.
    + rewrite IH by exact H. reflexivity.
Qed.

Lemma set_nth_length {A : Type} (l : list A) (k : nat) (a : A) :
  length (set_nth k a l) = length l.
Proof.
  revert k. induction l as [| x l IH]; intros k; [destruct k; reflexivity |].
  destruct k; cbn; [reflexivity | rewrite IH; reflexivity].
Qed.

Lemma py_index_in_range (len : nat) (i : Z) (k : nat) :
  py_index len i = Ok k -> (k < len)%nat.
Proof.
  unfold py_index.
  destruct ((0 <=? i)%Z && (i <? Z.of_nat len)%Z) eqn:E1.
  - intros H. injection H as <-. apply andb_prop in E1. destruct E1 as [Ha Hb].
    apply Z.leb_le in Ha. apply Z.ltb_lt in Hb. lia.
  - destruct ((- Z.of_nat len <=? i)%Z && (i <? 0)%Z) eqn:E2; [| discriminate].
    intros H. injection H as <-. apply andb_prop in E2. destruct E2 as [Ha Hb].
    apply Z.leb_le in Ha. apply Z.ltb_lt in Hb. lia.
Qed.

Section Messages.

Context {Channel : Type} `{API : ChannelAPI Channel}.
Variable NUM_CHANNELS : nat.

Lemma route_channel (eng : @AudioEngine Channel) (msg : message) (k : nat) :
  route NUM_CHANNELS eng msg = Ok k ->
  exists ch, nth_error (channels eng) k = Some ch.
Proof.
  unfold route. intros H. apply py_index_in_range in H.
  destruct (nth_error (channels eng) k) as [ch |] eqn:E; [eexists; reflexivity |].
  apply nth_error_None in E. lia.
Qed.

(** X18.  A note_on with velocity 0 (or less) is a note_off: the two
    messages have the same effect, exceptions included. *)
Theorem note_on_velocity_zero_is_note_off (eng : @AudioEngine Channel)
    (ch note : option Z) (v : Z) (vel' ctl val : option Z) :
  (v <= 0)%Z ->
  _process_midi NUM_CHANNELS eng
    (mkMessage (Some "note_on"%string) ch note (Some v) ctl val)
  = _process_midi NUM_CHANNELS eng
      (mkMessage (Some "note_off"%string) ch note vel' ctl val).
Proof.
  intros Hv. unfold _process_midi, route, is_type, bind, item.
  cbn [m_type m_channel m_note m_velocity m_control m_value].
  destruct (py_index _ _) as [k |]; [| reflexivity].
  destruct (nth_error (channels eng) k) as [c |]; [| reflexivity].
  cbn [String.eqb Ascii.eqb Bool.eqb].
  destruct (Z.gtb_spec v 0) as [Hgt | _]; [lia |].
  reflexivity.
Qed.

(** X19.  A message that lacks a field its type needs raises
    [KeyError]: a note_on without velocity or note, a note_off without
    note, a control_change without control or value. *)
Theorem missing_field_raises (eng : @AudioEngine Channel) (msg : message) (k : nat) :
  route NUM_CHANNELS eng msg = Ok k ->
  (m_type msg = Some "note_on"%string /\
   (m_velocity msg = None \/ m_note msg = None))
  \/ (m_type msg = Some "note_off"%string /\ m_note msg = None)
  \/ (m_type msg = Some "control_change"%string /\
      (m_control msg = None \/ m_value msg = None)) ->
  _process_midi NUM_CHANNELS eng msg = Raise KeyError.
Proof.
  intros Hr Hcase. unfold _process_midi. rewrite Hr. cbn [bind].
  destruct (route_channel eng msg k Hr) as [c Hc]. rewrite Hc.
  unfold is_type, bind, item.
  destruct Hcase as [[Ht Hm] | [[Ht Hm] | [Ht Hm]]]; rewrite Ht;
    cbn [String.eqb Ascii.eqb Bool.eqb].
  - destruct Hm as [Hm | Hm]; rewrite Hm; [reflexivity |].
    destruct (m_velocity msg) as [v |]; [| reflexivity].
    destruct (v >? 0)%Z; reflexivity.
  - rewrite Hm. reflexivity.
  - destruct Hm as [Hm | Hm]; rewrite Hm; [reflexivity |].
    destruct (m_control msg); reflexivity.
Qed.

(** X20.  A message of any other type (pitchwheel, an unknown name, or
    no type at all) is ignored: the engine is unchanged. *)
Theorem other_types_are_ignored (eng : @AudioEngine Channel) (msg : message) (k : nat) :
  route NUM_CHANNELS eng msg = Ok k ->
  m_type msg <> Some "note_on"%string ->
  m_type msg <> Some "note_off"%string ->
  m_type msg <> Some "control_change"%string ->
  _process_midi NUM_CHANNELS eng msg = Ok eng.
Proof.
  intros Hr H1 H2 H3. unfold _process_midi. rewrite Hr. cbn [bind].
  destruct (route_channel eng msg k Hr) as [c Hc]. rewrite Hc.
  unfold is_type, bind, item.
  destruct (m_type msg) as [t |].
  - destruct (String.eqb_spec t "note_on"); [subst; contradiction |].
    destruct (String.eqb_spec t "note_off"); [subst; contradiction |].
    destruct (String.eqb_spec t "control_change"); [subst; contradiction |].
    rewrite (set_nth_same _ _ _ Hc). destruct eng; reflexivity.
  - rewrite (set_nth_same _ _ _ Hc). destruct eng; reflexivity.
Qed.

(** X21.  Routing: with [NUM_CHANNELS] channels, a message for channel
    [c] in [0 .. NUM_CHANNELS-1] (channel 0 when the field is missing)
    is processed on that channel; every other channel, the number of
    channels, the queue and the master volume are left as they were. *)
Theorem message_reaches_its_channel (eng eng' : @AudioEngine Channel)
    (msg : message) :
  length (channels eng) = NUM_CHANNELS ->
  let c := match m_channel msg with Some c => c | None => 0%Z end in
  (0 <= c < Z.of_nat NUM_CHANNELS)%Z ->
  _process_midi NUM_CHANNELS eng msg = Ok eng' ->
  route NUM_CHANNELS eng msg = Ok (Z.to_nat c)
  /\ length (channels eng') = NUM_CHANNELS
  /\ (forall j, j <> Z.to_nat c ->
        nth_error (channels eng') j = nth_error (channels eng) j)
  /\ midi_queue eng' = midi_queue eng
  /\ _master_volume eng' = _master_volume eng.
Proof.
  intros Hlen c Hc H.
  assert (Hr : route NUM_CHANNELS eng msg = Ok (Z.to_nat c)).
  { unfold route. fold c.
    destruct (Z.geb_spec c (Z.of_nat NUM_CHANNELS)) as [Hge | _]; [lia |].
    unfold py_index. rewrite Hlen.
    destruct (Z.leb_spec 0 c) as [_ | Hn]; [| lia].
    destruct (Z.ltb_spec c (Z.of_nat NUM_CHANNELS)) as [_ | Hn]; [| lia].
    reflexivity. }
  split; [exact Hr |].
  split; [| split].
  - unfold _process_midi, bind in H. rewrite Hr in H.
    destruct (item (nth_error (channels eng) (Z.to_nat c))) as [ch |]; [| discriminate].
    match type of H with
    | match ?m with Ok _ => _ | Raise _ => _ end = _ =>
        destruct m as [ch' |]; [| discriminate]
    end.
    injection H as <-. cbn [with_channels channels].
    rewrite set_nth_length. exact Hlen.
  - intros j Hj. apply (EngineSpec.process_midi_frame NUM_CHANNELS eng eng' msg _ j Hr H Hj).
  - split.
    + unfold _process_midi, bind in H. rewrite Hr in H.
      destruct (item (nth_error (channels eng) (Z.to_nat c))) as [ch |]; [| discriminate].
      match type of H with
      | match ?m with Ok _ => _ | Raise _ => _ end = _ =>
          destruct m as [ch' |]; [| discriminate]
      end.
      injection H as <-. reflexivity.
    + apply (EngineSpec.process_midi_volume NUM_CHANNELS eng eng' msg H).
Qed.

(** X22.  A control change found in [CC_MAP] sets the mapped parameter
    to a value between the entry's minimum and maximum: controller
    value 0 gives the minimum and 127 the maximum. *)
Theorem cc_scaling (channel : Channel) (cc value : Z) (param : string)
    (min_val max_val : R) :
  CC_MAP cc = Some (param, min_val, max_val) ->
  min_val <= max_val ->
  (0 <= value <= 127)%Z ->
  exists scaled,
    _process_cc channel cc value = set_param channel param scaled
    /\ min_val <= scaled <= max_val
    /\ (value = 0%Z -> scaled = min_val)
    /\ (value = 127%Z -> scaled = max_val).
Proof.
  intros Hmap Hle [Hlo Hhi]. unfold _process_cc. rewrite Hmap. cbv zeta.
  eexists. split; [reflexivity |].
  apply IZR_le in Hlo. apply IZR_le in Hhi.
  set (t := IZR value / 127.0).
  assert (Ht : 0 <= t <= 1) by (unfold t; split; lra).
  split; [split; nra |]. split.
  - intros ->. unfold t. lra.
  - intros ->. unfold t. lra.
Qed.

(** A controller that is not in [CC_MAP] turns all notes of the
    channel off when it is 120 or 123 and is ignored otherwise; a
    controller in the map never does, 120 and 123 included. *)
Lemma cc_all_notes_off (channel : Channel) (cc value : Z) :
  (CC_MAP cc = None ->
   _process_cc channel cc value
   = if ((cc =? 120) || (cc =? 123))%Z then all_notes_off channel else channel)
  /\ (forall entry, CC_MAP cc = Some entry ->
        exists scaled,
          _process_cc channel cc value = set_param channel (fst (fst entry)) scaled).
Proof.
  split.
  - intros Hmap. unfold _process_cc. rewrite Hmap. reflexivity.
  - intros [[p lo] hi] Hmap. unfold _process_cc. rewrite Hmap. cbv zeta.
    eexists. reflexivity.
Qed.

(** X23.  The queue is drained in order: draining a queue is draining
    its front part and then, if that raised nothing, the rest. *)
Theorem drain_app (eng : @AudioEngine Channel) (q1 q2 : list message) :
  drain NUM_CHANNELS eng (q1 ++ q2)
  = bind (drain NUM_CHANNELS eng q1) (fun eng1 => drain NUM_CHANNELS eng1 q2).
Proof.
  revert eng. induction q1 as [| msg q1 IH]; intros eng; [reflexivity |].
  cbn [app drain]. unfold bind at 1 3.
  destruct (_process_midi NUM_CHANNELS eng msg) as [eng1 |]; [apply IH | reflexivity].
Qed.

(** X24.  The master-volume setter clamps: the stored volume is always
    in [[0, 1]], and a value already in that interval is stored as it
    is. *)
Theorem master_volume_is_clamped (eng : @AudioEngine Channel) (value : R) :
  0 <= _master_volume (set_master_volume eng value) <= 1
  /\ (0 <= value <= 1 -> _master_volume (set_master_volume eng value) = value)
  /\ (value <= 0 -> _master_volume (set_master_volume eng value) = 0)
  /\ (1 <= value -> _master_volume (set_master_volume eng value) = 1).
Proof.
  unfold set_master_volume. cbn [_master_volume].
  unfold Rmax, Rmin.
  repeat split; intros;
    destruct (Rle_dec 1.0 value); destruct (Rle_dec 0.0 _); lra.
Qed.


Lemma process_midi_shape (eng eng' : @AudioEngine Channel) (msg : message) :
  _process_midi NUM_CHANNELS eng msg = Ok eng' ->
  midi_queue eng' = midi_queue eng
  /\ _running eng' = _running eng
  /\ length (channels eng') = length (channels eng).
Proof.
  unfold _process_midi, bind. intros H.
  destruct (route NUM_CHANNELS eng msg) as [k |]; [| discriminate].
  destruct (item (nth_error (channels eng) k)) as [ch |]; [| discriminate].
  match type of H with
  | match ?m with Ok _ => _ | Raise _ => _ end = _ =>
      destruct m as [ch' |]; [| discriminate]
  end.
  injection H as <-. cbn [with_channels midi_queue _running channels].
  rewrite set_nth_length. auto.
Qed.

Lemma drain_shape (queue : list message) (eng eng' : @AudioEngine Channel) :
  drain NUM_CHANNELS eng queue = Ok eng' ->
  midi_queue eng' = midi_queue eng
  /\ _running eng' = _running eng
  /\ length (channels eng') = length (channels eng).
Proof.
  revert eng. induction queue as [| msg queue IH]; intros eng H.
  - cbn in H. injection H as <-. auto.
  - cbn [drain] in H. unfold bind in H.
    destruct (_process_midi NUM_CHANNELS eng msg) as [e1 |] eqn:E; [| discriminate].
    destruct (process_midi_shape _ _ _ E) as [A1 [A2 A3]].
    destruct (IH _ H) as [B1 [B2 B3]]. repeat split; congruence.
Qed.

Lemma render_channels_length (chs chs' : list Channel) (frames : nat)
    (out out' : list R) :
  render_channels chs frames out = Ok (out', chs') ->
  length chs' = length chs /\ length out' = length out.
Proof.
  revert out out' chs'. induction chs as [| ch chs IH]; intros out out' chs' H.
  - cbn in H. injection H as <- <-. auto.
  - cbn [render_channels] in H. destruct (render ch frames) as [buf ch1].
    unfold bind, add_into in H.
    destruct (Nat.eqb_spec (length buf) (length out)) as [Hl | _]; [| discriminate].
    destruct (render_channels chs frames _) as [[o c] |] eqn:E; [| discriminate].
    injection H as <- <-. destruct (IH _ _ _ E) as [H1 H2].
    cbn [fst snd length]. split; [lia |].
    rewrite H2, length_map, length_combine. lia.
Qed.

(** X25.  A callback that returns leaves the queue empty, keeps the
    master volume, the running flag and the number of channels, writes
    one sample per frame, and stores a peak that is not negative. *)
Theorem callback_postconditions (eng eng2 : @AudioEngine Channel)
    (frames : nat) (out : list R) :
  _audio_callback NUM_CHANNELS eng frames = Ok (eng2, out) ->
  midi_queue eng2 = []
  /\ _master_volume eng2 = _master_volume eng
  /\ _running eng2 = _running eng
  /\ length (channels eng2) = length (channels eng)
  /\ length out = frames
  /\ 0 <= _peak_level eng2.
Proof.
  unfold _audio_callback, bind. intros H.
  destruct (drain _ _ _) as [eng1 |] eqn:Ed; [| discriminate].
  destruct (render_channels _ _ _) as [[mix chs'] |] eqn:Er; [| discriminate].
  cbn [fst snd] in H.
  destruct (np_max _) as [peak |] eqn:Ep; [| discriminate].
  injection H as <- <-.
  destruct (drain_shape _ _ _ Ed) as [Hq [Hrun Hlen]].
  pose proof (EngineSpec.drain_volume _ _ _ _ Ed) as Hvol.
  destruct (render_channels_length _ _ _ _ _ Er) as [Hc Ho].
  cbn [midi_queue _master_volume _running channels _peak_level] in *.
  repeat split; try congruence.
  - rewrite !length_map, Ho. apply repeat_length.
  - apply EngineSpec.np_max_spec in Ep. destruct Ep as [Hin _].
    apply in_map_iff in Hin. destruct Hin as [y [<- _]]. apply Rabs_pos.
Qed.

(** X26.  A callback for zero frames raises: the peak is the maximum
    of an empty block, a [ValueError] of [np.max]. *)
Theorem callback_zero_frames_raises (eng eng1 : @AudioEngine Channel) :
  (forall ch : Channel, length (fst (render ch 0)) = 0%nat) ->
  drain NUM_CHANNELS
    (mkAudioEngine (channels eng) [] (_running eng) (_master_volume eng)
       (_peak_level eng)) (midi_queue eng) = Ok eng1 ->
  _audio_callback NUM_CHANNELS eng 0 = Raise ValueError.
Proof.
  intros Hrender Hdrain. unfold _audio_callback. rewrite Hdrain. cbn [bind].
  destruct (EngineSpec.render_channels_spec 0 Hrender (channels eng1) (repeat 0.0 0))
    as [mix [chs' [Hr [Hl _]]]]; [reflexivity |].
  rewrite Hr. cbn [bind fst snd].
  destruct mix; [reflexivity | discriminate].
Qed.

End Messages.

Lemma note_on_velocity_zero_is_note_off_witness :
  _process_midi 4 example_engine
    (mkMessage (Some "note_on"%string) (Some 1%Z) (Some 60%Z) (Some 0%Z) None None)
  = _process_midi 4 example_engine
      (mkMessage (Some "note_off"%string) (Some 1%Z) (Some 60%Z) None None None).
Proof. apply (@note_on_velocity_zero_is_note_off TraceChannel trace_api). lia. Defined.

Lemma missing_field_raises_witness :
  _process_midi 4 example_engine
    (mkMessage (Some "note_on"%string) (Some 2%Z) (Some 60%Z) None None None)
  = Raise KeyError.
Proof.
  apply (@missing_field_raises TraceChannel trace_api 4 example_engine _ 2).
  - reflexivity.
  - left. split; [reflexivity | left; reflexivity].
Defined.

Lemma other_types_are_ignored_witness :
  _process_midi 4 example_engine
    (mkMessage (Some "pitchwheel"%string) (Some 3%Z) None None None None)
  = Ok example_engine.
Proof.
  apply (@other_types_are_ignored TraceChannel trace_api 4 example_engine _ 3);
    [reflexivity | discriminate | discriminate | discriminate].
Defined.

Lemma message_reaches_its_channel_witness :
  let msg := mkMessage (Some "note_on"%string) (Some 2%Z) (Some 60%Z)
               (Some 100%Z) None None in
  exists eng',
    _process_midi 4 example_engine msg = Ok eng'
    /\ route 4 example_engine msg = Ok (Z.to_nat 2)
    /\ length (channels eng') = 4%nat
    /\ (forall j, j <> Z.to_nat 2 ->
          nth_error (channels eng') j = nth_error (channels example_engine) j)
    /\ midi_queue eng' = midi_queue example_engine
    /\ _master_volume eng' = _master_volume example_engine.
Proof.
  intros msg. eexists. split; [reflexivity |].
  apply (@message_reaches_its_channel TraceChannel trace_api 4 example_engine _ msg).
  - reflexivity.
  - cbn. lia.
  - reflexivity.
Defined.

Lemma cc_scaling_witness :
  exists scaled,
    @_process_cc TraceChannel trace_api_cc (mkTraceChannel 0 []) 74 64
    = @set_param TraceChannel trace_api_cc (mkTraceChannel 0 []) "filter.cutoff" scaled
    /\ 20.0 <= scaled <= 20000.0
    /\ (64%Z = 0%Z -> scaled = 20.0)
    /\ (64%Z = 127%Z -> scaled = 20000.0).
Proof.
  apply (@cc_scaling TraceChannel trace_api_cc).
  - reflexivity.
  - lra.
  - lia.
Defined.

Lemma callback_postconditions_witness :
  exists eng2 out,
    _audio_callback 4 example_engine 2 = Ok (eng2, out)
    /\ midi_queue eng2 = []
    /\ _master_volume eng2 = _master_volume example_engine
    /\ _running eng2 = _running example_engine
    /\ length (channels eng2) = length (channels example_engine)
    /\ length out = 2%nat
    /\ 0 <= _peak_level eng2.
Proof.
  eexists. eexists. split; [reflexivity |].
  apply (@callback_postconditions TraceChannel trace_api 4 example_engine).
  reflexivity.
Defined.

Lemma callback_zero_frames_raises_witness :
  _audio_callback 4 example_engine 0 = Raise ValueError.
Proof.
  apply (@callback_zero_frames_raises TraceChannel trace_api 4 example_engine
           example_engine).
  - intros ch. reflexivity.
  - reflexivity.
Defined.

End EngineExtra.

(* ================================================================== *)
(** * Properties of the keyboard handlers and of the cutoff knob *)

Module GuiSpec.
Import Gui.

Lemma KEY_MAP_range (key : string) (offset : Z) :
  KEY_MAP key = Some offset -> (0 <= offset <= 15)%Z.
Proof.
  unfold KEY_MAP.
  repeat match goal with
  | |- context [if ?c then _ else _] => destruct c
  end; intros H; try discriminate; injection H as <-; lia.
Qed.

Lemma lookup_In {A : Type} (key : string) (d : list (string * A)) (a : A) :
  lookup key d = Some a -> In (key, a) d.
Proof.
  induction d as [| [k x] d IH]; cbn; [discriminate |].
  destruct (String.eqb_spec k key) as [-> | _].
  - intros H. injection H as ->. left. reflexivity.
  - intros H. right. apply IH, H.
Qed.

Lemma pop_Forall {A : Type} (P : string * A -> Prop) (key : string)
    (d : list (string * A)) :
  Forall P d -> Forall P (pop key d).
Proof.
  induction d as [| [k x] d IH]; cbn; intros H; [constructor |].
  inversion H as [| ? ? H1 H2]; subst.
  destruct (String.eqb k key); [exact H2 |]. constructor; [exact H1 | apply IH, H2].
Qed.

Lemma stop_all_sent (held : list (string * Z)) (gui : SynthGUI) :
  let g := fold_left (fun g kn => _stop_note g (snd kn)) held gui in
  sent g = sent gui ++ map (fun kn => CallNoteOff (current_channel gui) (snd kn)) held
  /\ current_channel g = current_channel gui
  /\ kbd_octave g = kbd_octave gui
  /\ _pending_releases g = _pending_releases gui
  /\ timers g = timers gui.
Proof.
  revert gui. induction held as [| kn held IH]; intros gui; cbn [fold_left map].
  - rewrite app_nil_r. auto.
  - destruct (IH (_stop_note gui (snd kn))) as [H1 [H2 [H3 [H4 H5]]]].
    cbv zeta in *. rewrite H1, H2, H3, H4, H5.
    unfold _stop_note. cbn [sent current_channel kbd_octave _pending_releases timers].
    rewrite <- app_assoc. auto.
Qed.

Lemma handle_keyboard_ok (gui : SynthGUI) (ev : event) :
  keyboard_ok gui -> keyboard_ok (handle gui ev).
Proof.
  intros [Hoct [Hheld Hsent]]. unfold keyboard_ok.
  destruct ev as [key | key | key | | | ch]; cbn [handle].
  - unfold _on_key_press.
    destruct (KEY_MAP key) as [offset |] eqn:Ek; [| auto].
    apply KEY_MAP_range in Ek.
    destruct (contains key (_pending_releases gui)); [auto |].
    destruct (negb (contains key (_held_keys gui))); [| auto].
    unfold _play_note. cbn [kbd_octave _held_keys sent current_channel].
    assert (Hn : keyboard_note ((kbd_octave gui + 1) * 12 + offset))
      by (unfold keyboard_note; lia).
    split; [exact Hoct |]. split.
    + apply Forall_app. split; [exact Hheld | constructor; [exact Hn | constructor]].
    + apply Forall_app. split; [exact Hsent |].
      constructor; [split; [exact Hn | reflexivity] | constructor].
  - unfold _on_key_release.
    destruct (contains key (_held_keys gui) && _); auto.
  - unfold _do_key_release. cbv zeta.
    destruct (lookup key (_held_keys gui)) as [note |] eqn:El; [| auto].
    unfold _stop_note. cbn [kbd_octave _held_keys sent current_channel].
    split; [exact Hoct |]. split; [apply pop_Forall, Hheld |].
    apply Forall_app. split; [exact Hsent |].
    constructor; [| constructor]. cbn.
    apply lookup_In in El. rewrite Forall_forall in Hheld.
    apply (Hheld _ El).
  - unfold _oct_down. destruct (Z.gtb_spec (kbd_octave gui) 0); [| auto].
    cbn [set_octave kbd_octave _held_keys sent]. repeat split; auto; lia.
  - unfold _oct_up. destruct (Z.ltb_spec (kbd_octave gui) 7); [| auto].
    cbn [set_octave kbd_octave _held_keys sent]. repeat split; auto; lia.
  - unfold _select_channel. cbv zeta.
    destruct (stop_all_sent (_held_keys gui) gui) as [H1 [H2 [H3 _]]].
    cbv zeta in *. cbn [kbd_octave _held_keys sent]. rewrite H1, H3.
    split; [exact Hoct |]. split; [constructor |].
    apply Forall_app. split; [exact Hsent |].
    apply Forall_map. eapply Forall_impl; [| exact Hheld]. intros kn Hkn. exact Hkn.
Qed.

(** X28.  Whatever keys are pressed and released, timers fire,
    octaves shift and channels are selected, the keyboard octave stays
    in 0..7 and every note_on and note_off sent to the engine carries a
    note in 12..111, a valid MIDI note, note_ons with velocity 100. *)
Theorem keyboard_sends_valid_notes (evs : list event) :
  let gui := run init evs in
  (0 <= kbd_octave gui <= 7)%Z
  /\ Forall keyboard_call (sent gui).
Proof.
  cbv zeta.
  assert (H : keyboard_ok (run init evs)).
  { unfold run.
    assert (Hgen : forall g, keyboard_ok g -> keyboard_ok (fold_left handle evs g)).
    { induction evs as [| ev evs IH]; intros g Hg; [exact Hg |].
      cbn [fold_left]. apply IH, handle_keyboard_ok, Hg. }
    apply Hgen. unfold keyboard_ok, init. cbn. repeat split; try lia; constructor. }
  destruct H as [H1 [_ H3]]. split; assumption.
Qed.


Lemma sounding_app (channel : nat) (note : Z) (l1 l2 : list channel_call) :
  sounding channel note (l1 ++ l2)
  = (sounding channel note l1 + sounding channel note l2)%Z.
Proof.
  unfold sounding. induction l1 as [| c l1 IH]; cbn [app fold_right]; [lia |].
  rewrite IH. lia.
Qed.

Lemma held_count_app (note : Z) (h1 h2 : list (string * Z)) :
  held_count note (h1 ++ h2) = (held_count note h1 + held_count note h2)%Z.
Proof.
  unfold held_count. induction h1 as [| kn h1 IH]; cbn [app fold_right]; [lia |].
  rewrite IH. lia.
Qed.

Lemma held_count_pop (note : Z) (key : string) (held : list (string * Z)) (n : Z) :
  lookup key held = Some n ->
  held_count note (pop key held)
  = (held_count note held - (if (n =? note)%Z then 1 else 0))%Z.
Proof.
  induction held as [| [k x] held IH]; cbn [lookup pop]; [discriminate |].
  destruct (String.eqb k key).
  - intros H. injection H as ->. unfold held_count. cbn [fold_right snd]. lia.
  - intros H. specialize (IH H). unfold held_count in *.
    cbn [fold_right snd]. rewrite IH. lia.
Qed.

Lemma sounding_stop_all (channel cur : nat) (note : Z) (held : list (string * Z)) :
  sounding channel note (map (fun kn => CallNoteOff cur (snd kn)) held)
  = if (cur =? channel)%nat then (- held_count note held)%Z else 0%Z.
Proof.
  unfold sounding, held_count.
  induction held as [| kn held IH]; cbn [map fold_right sounding_delta].
  - destruct (cur =? channel)%nat; reflexivity.
  - rewrite IH. destruct (cur =? channel)%nat; cbn [andb]; [| lia].
    destruct (snd kn =? note)%Z; lia.
Qed.

Lemma handle_accounted (gui : SynthGUI) (ev : event) :
  accounted gui -> accounted (handle gui ev).
Proof.
  intros Hacc. destruct ev as [key | key | key | | | ch]; cbn [handle].
  - unfold _on_key_press.
    destruct (KEY_MAP key) as [offset |]; [| exact Hacc].
    destruct (contains key (_pending_releases gui)); [exact Hacc |].
    destruct (negb (contains key (_held_keys gui))); [| exact Hacc].
    intros c n. unfold _play_note.
    cbn [sent current_channel _held_keys kbd_octave].
    rewrite sounding_app, held_count_app, (Hacc c n).
    unfold sounding, held_count. cbn [fold_right sounding_delta snd].
    rewrite (Nat.eqb_sym (current_channel gui) c).
    destruct (c =? current_channel gui)%nat; cbn [andb]; [| lia].
    destruct (_ =? n)%Z; lia.
  - unfold _on_key_release. destruct (_ && _); exact Hacc.
  - unfold _do_key_release. cbv zeta.
    destruct (lookup key (_held_keys gui)) as [note |] eqn:El; [| exact Hacc].
    intros c n. unfold _stop_note.
    cbn [sent current_channel _held_keys kbd_octave].
    rewrite sounding_app, (held_count_pop n key _ note El), (Hacc c n).
    unfold sounding. cbn [fold_right sounding_delta].
    rewrite (Nat.eqb_sym (current_channel gui) c).
    destruct (c =? current_channel gui)%nat; cbn [andb]; [| lia].
    destruct (note =? n)%Z; lia.
  - unfold _oct_down. destruct (_ >? _)%Z; exact Hacc.
  - unfold _oct_up. destruct (_ <? _)%Z; exact Hacc.
  - unfold _select_channel. cbv zeta.
    destruct (stop_all_sent (_held_keys gui) gui) as [H1 _]. cbv zeta in H1.
    intros c n. cbn [sent current_channel _held_keys]. rewrite H1.
    rewrite sounding_app, sounding_stop_all, (Hacc c n).
    rewrite (Nat.eqb_sym (current_channel gui) c).
    change (held_count n []) with 0%Z.
    destruct (c =? current_channel gui)%nat; destruct (c =? ch)%nat; lia.
Qed.

(** X29.  No stuck notes: after any sequence of key presses, key
    releases, release timers, octave shifts and channel selections,
    each note sounds (note_ons minus note_offs sent) on the current
    channel once per held key that plays it and not at all on the other
    channels; so once no key is held, every note_on has been answered
    by a note_off on the same channel. *)
Theorem keyboard_notes_are_accounted (evs : list event) :
  let gui := run init evs in
  (forall channel note,
      sounding channel note (sent gui)
      = if (channel =? current_channel gui)%nat
        then held_count note (_held_keys gui) else 0%Z)
  /\ (_held_keys gui = [] ->
      forall channel note, sounding channel note (sent gui) = 0%Z).
Proof.
  cbv zeta.
  assert (H : accounted (run init evs)).
  { unfold run.
    assert (Hgen : forall g, accounted g -> accounted (fold_left handle evs g)).
    { induction evs as [| ev evs IH]; intros g Hg; [exact Hg |].
      cbn [fold_left]. apply IH, handle_accounted, Hg. }
    apply Hgen. intros c n. cbn. destruct (c =? 0)%nat; reflexivity. }
  split; [exact H |].
  intros Hempty c n. rewrite (H c n), Hempty.
  destruct (c =? _)%nat; reflexivity.
Qed.

Lemma contains_pop_append {A : Type} (key : string) (d : list (string * A)) (a : A) :
  contains key d = false -> pop key (d ++ [(key, a)]) = d.
Proof.
  unfold contains. induction d as [| [k x] d IH]; cbn [app pop lookup].
  - rewrite String.eqb_refl. reflexivity.
  - destruct (String.eqb k key); [discriminate |].
    intros H. rewrite IH by exact H. reflexivity.
Qed.

Lemma contains_append {A : Type} (key : string) (d : list (string * A)) (a : A) :
  contains key (d ++ [(key, a)]) = true.
Proof.
  unfold contains. induction d as [| [k x] d IH]; cbn [app lookup].
  - rewrite String.eqb_refl. reflexivity.
  - destruct (String.eqb k key); [reflexivity | exact IH].
Qed.

(** X30.  Key repeat does not retrigger: for a playing key that is
    held, a release immediately followed by a press (the pair the
    operating system sends while the key stays down) sends nothing to
    the engine and leaves the held keys and the pending releases as
    they were. *)
Theorem key_repeat_is_silent (gui : SynthGUI) (key : string) (offset : Z) :
  KEY_MAP key = Some offset ->
  contains key (_held_keys gui) = true ->
  contains key (_pending_releases gui) = false ->
  let gui' := _on_key_press (_on_key_release gui key) key in
  sent gui' = sent gui
  /\ _held_keys gui' = _held_keys gui
  /\ _pending_releases gui' = _pending_releases gui.
Proof.
  intros Hk Hheld Hpend. cbv zeta.
  unfold _on_key_release. rewrite Hheld, Hpend. cbn [andb negb].
  unfold _on_key_press. rewrite Hk.
  cbn [_pending_releases _held_keys sent current_channel kbd_octave timers].
  rewrite contains_append.
  cbn [_pending_releases _held_keys sent].
  rewrite contains_pop_append by exact Hpend. auto.
Qed.

Lemma key_repeat_is_silent_witness :
  let gui := _on_key_press init "a" in
  let gui' := _on_key_press (_on_key_release gui "a") "a" in
  sent gui' = sent gui
  /\ _held_keys gui' = _held_keys gui
  /\ _pending_releases gui' = _pending_releases gui.
Proof.
  intros gui. apply (key_repeat_is_silent gui "a" 0); reflexivity.
Defined.

(** ** The cutoff knob *)





End GuiSpec.
